(** * Multi-head self-attention of the lecture notebook

    A shallow embedding of the class [SelfAttention] of
    [Transformer&OtherMonsters_Lecture.ipynb] and of the tensor operations
    it calls, followed by the properties of its constructor and of its
    [forward] method.

    Tensors are a shape together with an index function.  Arithmetic is
    that of the real numbers: sums are exact, and the exponential is the
    real exponential.  The rounding and the overflow of the float32 format
    of the tensors are not modelled; statements about the values of a
    softmax are made for scores within the range of that format, and for
    whatever the steps before the softmax produced. *)

From Stdlib Require Import String Reals Lra Lia ZArith Bool.
From Stdlib Require Import PeanoNat List Permutation.
Import ListNotations.

(* ================================================================== *)
(** ** Python exceptions *)
(* ================================================================== *)

Inductive pyerror : Type :=
| ZeroDivisionError
| RuntimeError
| ValueError
| TypeError
| IndexError
| AttributeError.

Inductive result (A : Type) : Type :=
| Ok (a : A)
| Raise (e : pyerror).

Arguments Ok {A} a.
Arguments Raise {A} e.

Definition bind {A B : Type} (c : result A) (f : A -> result B) : result B :=
  match c with
  | Ok a => f a
  | Raise e => Raise e
  end.

Notation "x <- c ;; k" := (bind c (fun x => k))
  (at level 61, c at next level, right associativity).
Notation "' p <- c ;; k" := (bind c (fun x => let p := x in k))
  (at level 61, p pattern, c at next level, right associativity).

Fixpoint mapM {A B : Type} (f : A -> result B) (l : list A) : result (list B) :=
  match l with
  | [] => Ok []
  | a :: l' => b <- f a ;; bs <- mapM f l' ;; Ok (b :: bs)
  end.

(* ================================================================== *)
(** ** Finite sums and maxima of reals *)
(* ================================================================== *)

Definition list_sum_R (l : list R) : R := fold_right Rplus 0%R l.

Definition list_max_R (l : list R) : R :=
  match l with
  | [] => 0%R
  | a :: l' => fold_right Rmax a l'
  end.

(** [rsum n f] is f 0 + ... + f (n-1). *)
Definition rsum (n : nat) (f : nat -> R) : R := list_sum_R (map f (seq 0 n)).

(** [rmax n f] is the largest of f 0, ..., f (n-1). *)
Definition rmax (n : nat) (f : nat -> R) : R := list_max_R (map f (seq 0 n)).

(* ================================================================== *)
(** ** Tensors *)
(* ================================================================== *)

Record tensor (A : Type) : Type := mkTensor {
  shape : list nat;
  elem : list nat -> A
}.

Arguments mkTensor {A} shape elem.
Arguments shape {A} t.
Arguments elem {A} t idx.

Definition numel (sh : list nat) : nat := fold_right Nat.mul 1 sh.

(** An index is in range when it has the rank of the shape and every
    coordinate is below its dimension. *)
Definition in_range (sh idx : list nat) : Prop := Forall2 lt idx sh.

(** Row-major offset of an index, and its inverse. *)
Fixpoint ravel (sh idx : list nat) : nat :=
  match sh, idx with
  | _ :: sh', i :: idx' => i * numel sh' + ravel sh' idx'
  | _, _ => 0
  end.

Fixpoint unravel (sh : list nat) (off : nat) : list nat :=
  match sh with
  | [] => []
  | _ :: sh' => off / numel sh' :: unravel sh' (off mod numel sh')
  end.

(** Broadcasting of two shapes, aligned on the last axis. *)
Fixpoint broadcast_rev (ra rb : list nat) : option (list nat) :=
  match ra, rb with
  | [], _ => Some rb
  | _, [] => Some ra
  | x :: ra', y :: rb' =>
      if x =? y then option_map (cons x) (broadcast_rev ra' rb')
      else if x =? 1 then option_map (cons y) (broadcast_rev ra' rb')
      else if y =? 1 then option_map (cons x) (broadcast_rev ra' rb')
      else None
  end.

Definition broadcast_shapes (a b : list nat) : option (list nat) :=
  option_map (@rev nat) (broadcast_rev (rev a) (rev b)).

(** The index read in an operand of shape [sh] for the index [idx] of the
    broadcast result: the trailing coordinates, with 0 on axes of size 1. *)
Fixpoint zip_bindex (sh idx : list nat) : list nat :=
  match sh, idx with
  | d :: sh', i :: idx' => (if d =? 1 then 0 else i) :: zip_bindex sh' idx'
  | _, _ => []
  end.

Definition bindex (sh idx : list nat) : list nat :=
  zip_bindex sh (skipn (length idx - length sh) idx).

(** Exchange of positions [i] and [j] of a list. *)
Definition swap {A : Type} (i j : nat) (l : list A) (d : A) : list A :=
  map (fun p => nth (if p =? i then j else if p =? j then i else p) l d)
      (seq 0 (length l)).

(** A dimension argument, negative values counting from the end. *)
Definition norm_dim (rank : nat) (d : Z) : result nat :=
  if ((- Z.of_nat rank <=? d) && (d <? Z.of_nat rank))%Z
  then Ok (Z.to_nat (if (d <? 0)%Z then d + Z.of_nat rank else d))
  else Raise IndexError.

(** [Tensor.transpose(d0, d1)]. *)
Definition transpose {A : Type} (d0 d1 : Z) (t : tensor A) : result (tensor A) :=
  i <- norm_dim (length (shape t)) d0 ;;
  j <- norm_dim (length (shape t)) d1 ;;
  Ok (mkTensor (swap i j (shape t) 0) (fun idx => elem t (swap i j idx 0))).

(** Size inference of [view] and [reshape]: at most one entry may be -1,
    no entry may be below -1, and the element counts must agree. *)
Definition infer_size (sizes : list Z) (n : nat) : result (list nat) :=
  if existsb (fun d => (d <? -1)%Z) sizes then Raise RuntimeError
  else
    let infer := count_occ Z.eq_dec sizes (-1)%Z in
    let newsize := numel (map Z.to_nat (filter (fun d => (0 <=? d)%Z) sizes)) in
    if 1 <? infer then Raise RuntimeError
    else if infer =? 0 then
      if n =? newsize then Ok (map Z.to_nat sizes) else Raise RuntimeError
    else if (0 <? newsize) && (n mod newsize =? 0) then
      Ok (map (fun d => if (d =? -1)%Z then n / newsize else Z.to_nat d) sizes)
    else Raise RuntimeError.

(** [Tensor.view(sizes)].  The tensors viewed in [forward] are the chunks
    of the projection, whose strides allow every view that keeps the two
    leading axes and splits the last one; a view of a tensor without
    elements is always allowed.  So the only failures are those of the
    size inference. *)
Definition view {A : Type} (t : tensor A) (sizes : list Z) : result (tensor A) :=
  sh <- infer_size sizes (numel (shape t)) ;;
  Ok (mkTensor sh (fun idx => elem t (unravel (shape t) (ravel sh idx)))).

(** [Tensor.reshape(sizes)]: as [view], copying when the strides require. *)
Definition reshape {A : Type} (t : tensor A) (sizes : list Z) : result (tensor A) :=
  sh <- infer_size sizes (numel (shape t)) ;;
  Ok (mkTensor sh (fun idx => elem t (unravel (shape t) (ravel sh idx)))).

(** [Tensor.chunk(chunks, dim=-1)]: pieces of ceil(n/chunks) entries of the
    last axis; an axis of size 0 gives [chunks] empty pieces. *)
Definition chunk {A : Type} (chunks : nat) (t : tensor A) : list (tensor A) :=
  let n := last (shape t) 0 in
  let c := (n + chunks - 1) / chunks in
  let cnt := if c =? 0 then chunks else (n + c - 1) / c in
  map (fun i =>
         mkTensor (removelast (shape t) ++ [Nat.min c (n - i * c)])
                  (fun idx => elem t (removelast idx ++ [i * c + last idx 0])))
      (seq 0 cnt).

(** [nn.Linear]: weight of shape (out_features, in_features) and bias of
    shape (out_features). *)
Record Linear : Type := mkLinear {
  weight : tensor R;
  bias : tensor R
}.

(** Calling a [Linear]: x W^T + b over the last axis. *)
Definition linear (l : Linear) (x : tensor R) : result (tensor R) :=
  match shape (weight l), shape x with
  | [out_f; in_f], _ :: _ =>
      if last (shape x) 0 =? in_f then
        Ok (mkTensor (removelast (shape x) ++ [out_f])
              (fun idx =>
                 let o := last idx 0 in
                 let pre := removelast idx in
                 (rsum in_f (fun e => elem x (pre ++ [e]) * elem (weight l) [o; e])
                  + elem (bias l) [o])%R))
      else Raise RuntimeError
  | _, _ => Raise RuntimeError
  end.

(** [a @ b] for operands of rank at least 2: matrix product over the last
    two axes, the leading axes broadcast.  (The operands in [forward] have
    rank 4 or more.) *)
Definition matmul (a b : tensor R) : result (tensor R) :=
  match rev (shape a), rev (shape b) with
  | m :: n :: rba, p :: m' :: rbb =>
      if m =? m' then
        match broadcast_shapes (rev rba) (rev rbb) with
        | Some bs =>
            Ok (mkTensor (bs ++ [n; p])
                  (fun idx =>
                     let bi := firstn (length bs) idx in
                     let i := nth (length bs) idx 0 in
                     let j := nth (S (length bs)) idx 0 in
                     rsum m (fun c => (elem a (bindex (rev rba) bi ++ [i; c])
                                       * elem b (bindex (rev rbb) bi ++ [c; j]))%R)))
        | None => Raise RuntimeError
        end
      else Raise RuntimeError
  | _, _ => Raise RuntimeError
  end.

Definition mul_scalar (t : tensor R) (s : R) : tensor R :=
  mkTensor (shape t) (fun idx => (elem t idx * s)%R).

Definition is_zero (r : R) : bool := if Req_dec_T r 0 then true else false.

(** [mask == 0]. *)
Definition eq_zero (m : tensor R) : tensor bool :=
  mkTensor (shape m) (fun idx => is_zero (elem m idx)).

(** [Tensor.masked_fill(cond, value)], out of place: tensor and condition
    are broadcast against each other. *)
Definition masked_fill (t : tensor R) (cond : tensor bool) (value : R)
  : result (tensor R) :=
  match broadcast_shapes (shape t) (shape cond) with
  | Some sh =>
      Ok (mkTensor sh
            (fun idx => if elem cond (bindex (shape cond) idx) then value
                        else elem t (bindex (shape t) idx)))
  | None => Raise RuntimeError
  end.

(** [torch.softmax(t, dim=-1)], computed as the library does it, the
    maximum of the row subtracted before the exponential. *)
Definition softmax (t : tensor R) : tensor R :=
  mkTensor (shape t)
    (fun idx =>
       let n := last (shape t) 0 in
       let row := fun j => elem t (removelast idx ++ [j]) in
       let m := rmax n row in
       (exp (elem t idx - m) / rsum n (fun j => exp (row j - m)))%R).

(* ================================================================== *)
(** ** Python numbers and values *)
(* ================================================================== *)

(** [a // b] on integers. *)
Definition py_floordiv (a b : Z) : result Z :=
  if (b =? 0)%Z then Raise ZeroDivisionError else Ok (a / b)%Z.

(** The value of an integer raised to a float power is a float, or a
    complex number when the base is negative. *)
Inductive pynumber : Type :=
| PyFloat (r : R)
| PyComplex (re im : R).

(** [n ** -0.5] for an integer [n]. *)
Definition py_pow_neg_half (n : Z) : result pynumber :=
  if (n =? 0)%Z then Raise ZeroDivisionError
  else if (0 <? n)%Z then Ok (PyFloat (/ sqrt (IZR n))%R)
  else Ok (PyComplex 0%R (- / sqrt (IZR (- n)))%R).

Definition real_part (s : pynumber) : R :=
  match s with
  | PyFloat r => r
  | PyComplex re _ => re
  end.

(** The arguments a caller can pass to [forward].  A mask is a tensor whose
    entries are compared with 0; a boolean mask is the tensor of its 0/1
    values. *)
Inductive pyvalue : Type :=
| PyTensor (t : tensor R)
| PyNone
| PyBool (b : bool).

(* ================================================================== *)
(** ** The random generator and [nn.Linear] construction *)
(* ================================================================== *)

(** The global generator: the values it will deliver, already distributed
    as the initialiser of [nn.Linear] wants them, and how many were
    consumed. *)
Record generator : Type := mkGen {
  draws : nat -> R;
  cursor : nat
}.

(** [nn.Linear(in_features, out_features)]: allocation fails on a negative
    size; the parameters are filled from the generator. *)
Definition new_Linear (in_features out_features : Z) (g : generator)
  : result (Linear * generator) :=
  if ((in_features <? 0) || (out_features <? 0))%Z then Raise RuntimeError
  else
    let i := Z.to_nat in_features in
    let o := Z.to_nat out_features in
    Ok (mkLinear
          (mkTensor [o; i] (fun idx => draws g (cursor g + ravel [o; i] idx)))
          (mkTensor [o] (fun idx => draws g (cursor g + o * i + ravel [o] idx))),
        mkGen (draws g) (cursor g + o * i + o)).

(* ================================================================== *)
(** ** class SelfAttention *)
(* ================================================================== *)

Record SelfAttention : Type := mkSelfAttention {
  embed_size : Z;
  heads : Z;
  head_dim : Z;
  to_qkv : Linear;
  scale : pynumber;
  to_out : Linear
}.

(** [SelfAttention.__init__(embed_size, heads)]. *)
Definition init (embed_size heads : Z) (g : generator)
  : result (SelfAttention * generator) :=
  head_dim <- py_floordiv embed_size heads ;;
  ' (to_qkv, g1) <- new_Linear embed_size (3 * embed_size) g ;;
  scale <- py_pow_neg_half head_dim ;;
  ' (to_out, g2) <- new_Linear embed_size embed_size g1 ;;
  Ok (mkSelfAttention embed_size heads head_dim to_qkv scale to_out, g2).

(** The fill value of masked scores. *)
Definition sentinel : R := (-1e9)%R.

(** The intermediate tensors of one call of [forward]. *)
Record trace : Type := mkTrace {
  tr_q : tensor R;
  tr_k : tensor R;
  tr_v : tensor R;
  tr_scores : tensor R;
  tr_attn : tensor R;
  tr_context : tensor R;
  tr_out : tensor R
}.

(** The body of [SelfAttention.forward(x, mask)], keeping its local
    variables.  A complex [scale] would make the scores a complex tensor,
    which [torch.softmax] rejects; the model keeps the real part of such
    scores, which is never read. *)
Definition forward_trace (self : SelfAttention) (x : tensor R) (mask : pyvalue)
  : result trace :=
  match shape x with
  | [batch_size; seq_len; _] =>
      y <- linear (to_qkv self) x ;;
      let qkv := chunk 3 y in
      qkv' <- mapM (fun t =>
                      t' <- view t [Z.of_nat batch_size; Z.of_nat seq_len;
                                    heads self; head_dim self] ;;
                      transpose 1 2 t') qkv ;;
      match qkv' with
      | [q; k; v] =>
          kt <- transpose (-2) (-1) k ;;
          qk <- matmul q kt ;;
          let scores := mul_scalar qk (real_part (scale self)) in
          scores <- match mask with
                    | PyNone => Ok scores
                    | PyTensor m => masked_fill scores (eq_zero m) sentinel
                    | PyBool _ => Raise TypeError
                    end ;;
          attn_weights <- match scale self with
                          | PyFloat _ => Ok (softmax scores)
                          | PyComplex _ _ => Raise RuntimeError
                          end ;;
          context <- matmul attn_weights v ;;
          ct <- transpose 1 2 context ;;
          context' <- reshape ct [Z.of_nat batch_size; Z.of_nat seq_len;
                                  embed_size self] ;;
          out <- linear (to_out self) context' ;;
          Ok (mkTrace q k v scores attn_weights context out)
      | _ => Raise ValueError
      end
  | _ => Raise ValueError
  end.

(** [SelfAttention.forward(x, mask)]: the value returned is the projected
    context alone. *)
Definition forward (self : SelfAttention) (x : tensor R) (mask : pyvalue)
  : result (tensor R) :=
  tr <- forward_trace self x mask ;;
  Ok (tr_out tr).

(** Binding of the arguments of a call to the parameters of
    [def forward(self, x, mask=None)]. *)
Definition kw_lookup (name : string) (kwargs : list (string * pyvalue))
  : option pyvalue :=
  option_map snd (find (fun kv => String.eqb (fst kv) name) kwargs).

Definition kw_known (kv : string * pyvalue) : bool :=
  String.eqb (fst kv) "x" || String.eqb (fst kv) "mask".

Definition bind_forward (args : list pyvalue) (kwargs : list (string * pyvalue))
  : result (pyvalue * pyvalue) :=
  if negb (forallb kw_known kwargs) then Raise TypeError
  else
    let mask_kw := match kw_lookup "mask" kwargs with
                   | Some m => m
                   | None => PyNone
                   end in
    match args, kw_lookup "x" kwargs, kw_lookup "mask" kwargs with
    | [], Some x, _ => Ok (x, mask_kw)
    | [x], None, _ => Ok (x, mask_kw)
    | [x; m], None, None => Ok (x, m)
    | _, _, _ => Raise TypeError
    end.

(** A call of the module with positional and keyword arguments. *)
Definition call_forward (self : SelfAttention) (args : list pyvalue)
  (kwargs : list (string * pyvalue)) : result (tensor R) :=
  ' (x, mask) <- bind_forward args kwargs ;;
  match x with
  | PyTensor t => forward self t mask
  | _ => Raise AttributeError
  end.

(* ================================================================== *)
(** ** Sums over an index range *)
(* ================================================================== *)

Section Sums.
Local Open Scope R_scope.

Lemma list_sum_R_app (l1 l2 : list R) :
  list_sum_R (l1 ++ l2) = list_sum_R l1 + list_sum_R l2.
Proof.
  induction l1 as [|a l1 IH]; simpl.
  - lra.
  - rewrite IH. lra.
Qed.

Lemma list_sum_R_perm (l1 l2 : list R) :
  Permutation l1 l2 -> list_sum_R l1 = list_sum_R l2.
Proof.
  induction 1; simpl; lra.
Qed.

Lemma rsum_ext (n : nat) (f g : nat -> R) :
  (forall i, (i < n)%nat -> f i = g i) -> rsum n f = rsum n g.
Proof.
  intros Hfg. unfold rsum. f_equal.
  apply map_ext_in. intros i Hi. apply in_seq in Hi. apply Hfg. lia.
Qed.

Lemma rsum_S (n : nat) (f : nat -> R) :
  rsum (S n) f = rsum n f + f n.
Proof.
  unfold rsum. rewrite seq_S, map_app, list_sum_R_app. simpl. lra.
Qed.

Lemma rsum_0 (f : nat -> R) : rsum 0 f = 0.
Proof. reflexivity. Qed.

Lemma rsum_scal (n : nat) (c : R) (f : nat -> R) :
  rsum n (fun i => c * f i) = c * rsum n f.
Proof.
  induction n as [|n IH].
  - rewrite !rsum_0. lra.
  - rewrite !rsum_S, IH. lra.
Qed.

Lemma rsum_const (n : nat) (c : R) :
  rsum n (fun _ => c) = INR n * c.
Proof.
  induction n as [|n IH].
  - rewrite rsum_0. simpl. lra.
  - rewrite rsum_S, IH, S_INR. lra.
Qed.

Lemma rsum_plus (n : nat) (f g : nat -> R) :
  rsum n (fun i => f i + g i) = rsum n f + rsum n g.
Proof.
  induction n as [|n IH].
  - rewrite !rsum_0. lra.
  - rewrite !rsum_S, IH. lra.
Qed.

Lemma rsum_nonneg (n : nat) (f : nat -> R) :
  (forall i, (i < n)%nat -> 0 <= f i) -> 0 <= rsum n f.
Proof.
  induction n as [|n IH]; intros Hf.
  - rewrite rsum_0. lra.
  - rewrite rsum_S.
    assert (0 <= rsum n f) by (apply IH; intros; apply Hf; lia).
    assert (0 <= f n) by (apply Hf; lia). lra.
Qed.

Lemma rsum_le (n : nat) (f g : nat -> R) :
  (forall i, (i < n)%nat -> f i <= g i) -> rsum n f <= rsum n g.
Proof.
  induction n as [|n IH]; intros Hf.
  - rewrite !rsum_0. lra.
  - rewrite !rsum_S.
    assert (rsum n f <= rsum n g) by (apply IH; intros; apply Hf; lia).
    assert (f n <= g n) by (apply Hf; lia). lra.
Qed.

(** One term of a sum of non-negative terms is below the sum. *)
Lemma rsum_term_le (n : nat) (f : nat -> R) (j : nat) :
  (forall i, (i < n)%nat -> 0 <= f i) -> (j < n)%nat -> f j <= rsum n f.
Proof.
  induction n as [|n IH]; intros Hf Hj.
  - lia.
  - rewrite rsum_S.
    assert (0 <= rsum n f) by (apply rsum_nonneg; intros; apply Hf; lia).
    assert (0 <= f n) by (apply Hf; lia).
    destruct (Nat.eq_dec j n) as [->|Hne].
    + lra.
    + assert (f j <= rsum n f) by (apply IH; [intros; apply Hf|]; lia). lra.
Qed.

Lemma rsum_pos (n : nat) (f : nat -> R) :
  (0 < n)%nat -> (forall i, (i < n)%nat -> 0 < f i) -> 0 < rsum n f.
Proof.
  intros Hn Hf.
  assert (f 0%nat <= rsum n f).
  { apply rsum_term_le; [|lia]. intros i Hi. left. now apply Hf. }
  assert (0 < f 0%nat) by (apply Hf; lia). lra.
Qed.

(** A sum is unchanged when its index is run through a permutation. *)
Lemma rsum_perm (n : nat) (p : nat -> nat) (f : nat -> R) :
  Permutation (map p (seq 0 n)) (seq 0 n) ->
  rsum n (fun i => f (p i)) = rsum n f.
Proof.
  intros Hp. unfold rsum.
  rewrite <- (map_map p f).
  apply list_sum_R_perm. now apply Permutation_map.
Qed.

Lemma perm_lt (n : nat) (p : nat -> nat) (i : nat) :
  Permutation (map p (seq 0 n)) (seq 0 n) -> (i < n)%nat -> (p i < n)%nat.
Proof.
  intros Hp Hi.
  assert (In (p i) (seq 0 n)) as Hin.
  { eapply Permutation_in; [exact Hp|]. apply in_map. apply in_seq. lia. }
  apply in_seq in Hin. lia.
Qed.

(** A sum split by a predicate on the index. *)
Lemma rsum_split (n : nat) (c : nat -> bool) (f : nat -> R) :
  rsum n f = rsum n (fun i => if c i then f i else 0)
             + rsum n (fun i => if c i then 0 else f i).
Proof.
  rewrite <- rsum_plus. apply rsum_ext. intros i _. destruct (c i); lra.
Qed.

End Sums.

(* ================================================================== *)
(** ** Indices, shapes and broadcasting *)
(* ================================================================== *)

Lemma numel_cons (d : nat) (sh : list nat) : numel (d :: sh) = d * numel sh.
Proof. reflexivity. Qed.

Lemma ravel_lt (sh idx : list nat) :
  in_range sh idx -> ravel sh idx < numel sh.
Proof.
  unfold in_range. intros Hr.
  induction Hr as [|i d idx sh Hid Hr IH]; simpl.
  - lia.
  - fold (numel sh). nia.
Qed.

Lemma unravel_ravel (sh idx : list nat) :
  in_range sh idx -> unravel sh (ravel sh idx) = idx.
Proof.
  unfold in_range. intros Hr.
  induction Hr as [|i d idx sh Hid Hr IH]; simpl.
  - reflexivity.
  - pose proof (ravel_lt _ _ Hr) as Hlt.
    assert (numel sh <> 0) as Hnz by lia.
    f_equal.
    + rewrite Nat.div_add_l by exact Hnz.
      rewrite Nat.div_small by exact Hlt. lia.
    + rewrite Nat.add_comm, Nat.Div0.mod_add, Nat.mod_small by exact Hlt.
      exact IH.
Qed.

Lemma in_range_3 (B S E b s e : nat) :
  b < B -> s < S -> e < E -> in_range [B; S; E] [b; s; e].
Proof. intros. repeat constructor; assumption. Qed.

Lemma in_range_4 (B H S D b h s d : nat) :
  b < B -> h < H -> s < S -> d < D -> in_range [B; H; S; D] [b; h; s; d].
Proof. intros. repeat constructor; assumption. Qed.

(** Splitting the last axis of a rank-3 index, as [view] does. *)
Lemma unravel_split (B S H D b s h d : nat) :
  b < B -> s < S -> h < H -> d < D ->
  unravel [B; S; H * D] (ravel [B; S; H; D] [b; s; h; d]) = [b; s; h * D + d].
Proof.
  intros Hb Hs Hh Hd.
  replace (ravel [B; S; H; D] [b; s; h; d])
    with (ravel [B; S; H * D] [b; s; h * D + d]) by (simpl; ring).
  apply unravel_ravel. apply in_range_3; nia.
Qed.

(** Merging the last two axes of a rank-4 index, as [reshape] does. *)
Lemma unravel_merge (B S H D b s e : nat) :
  b < B -> s < S -> e < H * D ->
  unravel [B; S; H; D] (ravel [B; S; H * D] [b; s; e]) = [b; s; e / D; e mod D].
Proof.
  intros Hb Hs He.
  assert (D <> 0) as HD by nia.
  pose proof (Nat.div_mod_eq e D) as Hdm.
  pose proof (Nat.mod_upper_bound e D HD) as Hm.
  assert (e / D < H) as Hq by (apply Nat.Div0.div_lt_upper_bound; nia).
  replace (ravel [B; S; H * D] [b; s; e])
    with (ravel [B; S; H; D] [b; s; e / D; e mod D]) by (simpl; nia).
  apply unravel_ravel. apply in_range_4; assumption.
Qed.

Lemma existsb_below_of_nat (l : list nat) :
  existsb (fun d => (d <? -1)%Z) (map Z.of_nat l) = false.
Proof.
  induction l as [|a l IH]; simpl; [reflexivity|].
  rewrite IH, orb_false_r. apply Z.ltb_ge. lia.
Qed.

Lemma count_minus_one_of_nat (l : list nat) :
  count_occ Z.eq_dec (map Z.of_nat l) (-1)%Z = 0.
Proof.
  induction l as [|a l IH]; simpl; [reflexivity|].
  destruct (Z.eq_dec (Z.of_nat a) (-1)); [lia|exact IH].
Qed.

Lemma filter_nonneg_of_nat (l : list nat) :
  filter (fun d => (0 <=? d)%Z) (map Z.of_nat l) = map Z.of_nat l.
Proof.
  induction l as [|a l IH]; simpl; [reflexivity|].
  replace (0 <=? Z.of_nat a)%Z with true by (symmetry; apply Z.leb_le; lia).
  now rewrite IH.
Qed.

Lemma to_nat_of_nat_map (l : list nat) : map Z.to_nat (map Z.of_nat l) = l.
Proof.
  induction l as [|a l IH]; simpl; [reflexivity|].
  now rewrite Nat2Z.id, IH.
Qed.

(** Sizes that are all natural numbers are accepted exactly when the
    element counts agree. *)
Lemma infer_size_of_nat (l : list nat) (n : nat) :
  infer_size (map Z.of_nat l) n
  = if n =? numel l then Ok l else Raise RuntimeError.
Proof.
  unfold infer_size.
  rewrite existsb_below_of_nat, count_minus_one_of_nat, filter_nonneg_of_nat.
  rewrite to_nat_of_nat_map. reflexivity.
Qed.

Lemma broadcast_rev_refl (l : list nat) : broadcast_rev l l = Some l.
Proof.
  induction l as [|a l IH]; simpl; [reflexivity|].
  now rewrite Nat.eqb_refl, IH.
Qed.

Lemma broadcast_shapes_refl (l : list nat) : broadcast_shapes l l = Some l.
Proof.
  unfold broadcast_shapes. rewrite broadcast_rev_refl. simpl.
  now rewrite rev_involutive.
Qed.

Lemma zip_bindex_in_range (sh idx : list nat) :
  in_range sh idx -> zip_bindex sh idx = idx.
Proof.
  unfold in_range. intros Hr.
  induction Hr as [|i d idx sh Hid Hr IH]; simpl; [reflexivity|].
  rewrite IH. destruct (Nat.eqb_spec d 1); [f_equal; lia|reflexivity].
Qed.

(** An operand that already has the shape of the result is read at the
    index of the result. *)
Lemma bindex_in_range (sh idx : list nat) :
  in_range sh idx -> bindex sh idx = idx.
Proof.
  intros Hr. unfold bindex.
  replace (length idx - length sh) with 0
    by (unfold in_range in Hr; apply Forall2_length in Hr; lia).
  simpl. now apply zip_bindex_in_range.
Qed.

(* ================================================================== *)
(** ** The tensor operations on the shapes met in [forward] *)
(* ================================================================== *)

Lemma linear_spec3 (l : Linear) (x : tensor R) (O I B S : nat) :
  shape (weight l) = [O; I] -> shape x = [B; S; I] ->
  exists y, linear l x = Ok y /\ shape y = [B; S; O] /\
    forall b s o,
      elem y [b; s; o]
      = (rsum I (fun e => elem x [b; s; e] * elem (weight l) [o; e])
         + elem (bias l) [o])%R.
Proof.
  intros Hw Hx. unfold linear. rewrite Hw, Hx. simpl.
  rewrite Nat.eqb_refl. eexists. split; [reflexivity|].
  split; reflexivity.
Qed.

Lemma linear_mismatch (l : Linear) (x : tensor R) (O I B S E : nat) :
  shape (weight l) = [O; I] -> shape x = [B; S; E] -> E <> I ->
  linear l x = Raise RuntimeError.
Proof.
  intros Hw Hx Hne. unfold linear. rewrite Hw, Hx. simpl.
  destruct (Nat.eqb_spec E I); [contradiction|reflexivity].
Qed.

Lemma chunk3_spec (A : Type) (y : tensor A) (B S E n : nat) :
  0 < E -> n = 3 * E -> shape y = [B; S; n] ->
  exists c0 c1 c2, chunk 3 y = [c0; c1; c2] /\
    shape c0 = [B; S; E] /\ shape c1 = [B; S; E] /\ shape c2 = [B; S; E] /\
    forall b s e,
      elem c0 [b; s; e] = elem y [b; s; e] /\
      elem c1 [b; s; e] = elem y [b; s; E + e] /\
      elem c2 [b; s; e] = elem y [b; s; 2 * E + e].
Proof.
  intros HE Hn Hy. unfold chunk. rewrite Hy.
  cbn [last removelast app].
  assert ((n + 3 - 1) / 3 = E) as Hc.
  { subst n. replace (3 * E + 3 - 1) with (2 + E * 3) by lia.
    rewrite Nat.div_add by lia. reflexivity. }
  rewrite Hc.
  assert ((n + E - 1) / E = 3) as Hcnt.
  { subst n. replace (3 * E + E - 1) with ((E - 1) + 3 * E) by lia.
    rewrite Nat.div_add by lia. rewrite Nat.div_small by lia. reflexivity. }
  rewrite Hcnt.
  destruct (Nat.eqb_spec E 0) as [?|_]; [lia|].
  cbn [seq map].
  do 3 eexists. split; [reflexivity|].
  cbn [shape elem].
  repeat split; try (f_equal; f_equal; f_equal; lia);
    cbn [last removelast app]; f_equal; f_equal; f_equal; f_equal; lia.
Qed.

Lemma norm_dim_4 :
  norm_dim 4 1 = Ok 1 /\ norm_dim 4 2 = Ok 2 /\
  norm_dim 4 (-1) = Ok 3 /\ norm_dim 4 (-2) = Ok 2.
Proof. repeat split. Qed.

(** [t.view(B, S, heads, head_dim).transpose(1, 2)] on a chunk. *)
Lemma split_heads_spec (c : tensor R) (B S H D : nat) :
  shape c = [B; S; H * D] ->
  exists t,
    (t' <- view c [Z.of_nat B; Z.of_nat S; Z.of_nat H; Z.of_nat D] ;;
     transpose 1 2 t') = Ok t /\
    shape t = [B; H; S; D] /\
    forall b h s d, b < B -> h < H -> s < S -> d < D ->
      elem t [b; h; s; d] = elem c [b; s; h * D + d].
Proof.
  intros Hc. unfold view.
  change [Z.of_nat B; Z.of_nat S; Z.of_nat H; Z.of_nat D]
    with (map Z.of_nat [B; S; H; D]).
  rewrite infer_size_of_nat, Hc.
  replace (numel [B; S; H * D] =? numel [B; S; H; D]) with true
    by (symmetry; apply Nat.eqb_eq; simpl; ring).
  cbn [bind]. unfold transpose. cbn [shape length].
  destruct norm_dim_4 as (-> & -> & _). cbn [bind].
  eexists. split; [reflexivity|]. split; [reflexivity|].
  intros b h s d Hb Hh Hs Hd. cbn [elem].
  change (swap 1 2 [b; h; s; d] 0) with [b; s; h; d].
  now rewrite unravel_split.
Qed.

Lemma transpose_last_spec (t : tensor R) (B H S D : nat) :
  shape t = [B; H; S; D] ->
  exists t', transpose (-2) (-1) t = Ok t' /\ shape t' = [B; H; D; S] /\
    forall b h d s, elem t' [b; h; d; s] = elem t [b; h; s; d].
Proof.
  intros Ht. unfold transpose. rewrite Ht. cbn [length].
  destruct norm_dim_4 as (_ & _ & -> & ->). cbn [bind].
  eexists. split; [reflexivity|]. split; reflexivity.
Qed.

Lemma transpose_12_spec (t : tensor R) (B H S D : nat) :
  shape t = [B; H; S; D] ->
  exists t', transpose 1 2 t = Ok t' /\ shape t' = [B; S; H; D] /\
    forall b s h d, elem t' [b; s; h; d] = elem t [b; h; s; d].
Proof.
  intros Ht. unfold transpose. rewrite Ht. cbn [length].
  destruct norm_dim_4 as (-> & -> & _). cbn [bind].
  eexists. split; [reflexivity|]. split; reflexivity.
Qed.

Lemma matmul_spec4 (a b : tensor R) (B H N M P : nat) :
  shape a = [B; H; N; M] -> shape b = [B; H; M; P] ->
  exists t, matmul a b = Ok t /\ shape t = [B; H; N; P] /\
    forall x h i j, x < B -> h < H ->
      elem t [x; h; i; j]
      = rsum M (fun c => (elem a [x; h; i; c] * elem b [x; h; c; j])%R).
Proof.
  intros Ha Hb. unfold matmul. rewrite Ha, Hb. cbn [rev app].
  rewrite Nat.eqb_refl, broadcast_shapes_refl.
  eexists. split; [reflexivity|]. split; [reflexivity|].
  intros x h i j Hx Hh. cbn [elem length firstn nth].
  rewrite (@bindex_in_range [B; H] [x; h]) by (repeat constructor; assumption).
  reflexivity.
Qed.

Lemma reshape_merge_spec (t : tensor R) (B S H D : nat) :
  shape t = [B; S; H; D] ->
  exists t', reshape t [Z.of_nat B; Z.of_nat S; Z.of_nat (H * D)] = Ok t' /\
    shape t' = [B; S; H * D] /\
    forall b s e, b < B -> s < S -> e < H * D ->
      elem t' [b; s; e] = elem t [b; s; e / D; e mod D].
Proof.
  intros Ht. unfold reshape.
  change [Z.of_nat B; Z.of_nat S; Z.of_nat (H * D)]
    with (map Z.of_nat [B; S; H * D]).
  rewrite infer_size_of_nat, Ht.
  replace (numel [B; S; H; D] =? numel [B; S; H * D]) with true
    by (symmetry; apply Nat.eqb_eq; simpl; ring).
  cbn [bind]. eexists. split; [reflexivity|]. split; [reflexivity|].
  intros b s e Hb Hs He. cbn [elem]. now rewrite unravel_merge.
Qed.

Lemma masked_fill_spec (t : tensor R) (m : tensor R) (sh : list nat) :
  shape t = sh -> broadcast_shapes sh (shape m) = Some sh ->
  exists t', masked_fill t (eq_zero m) sentinel = Ok t' /\ shape t' = sh /\
    forall idx, in_range sh idx ->
      elem t' idx = if is_zero (elem m (bindex (shape m) idx)) then sentinel
                    else elem t idx.
Proof.
  intros Ht Hb. unfold masked_fill. cbn [shape eq_zero]. rewrite Ht, Hb.
  eexists. split; [reflexivity|]. split; [reflexivity|].
  intros idx Hr. cbn [elem eq_zero].
  now rewrite (bindex_in_range _ _ Hr).
Qed.

(* ================================================================== *)
(** ** Softmax rows *)
(* ================================================================== *)

Section SoftmaxRows.
Local Open Scope R_scope.

Lemma div_between_0_1 (a b : R) :
  0 <= a -> a <= b -> 0 < b -> 0 <= a / b <= 1.
Proof.
  intros Ha Hab Hb. unfold Rdiv.
  pose proof (Rinv_0_lt_compat b Hb) as Hi.
  split; [nra|].
  replace 1 with (b * / b) by (field; lra). nra.
Qed.

Lemma rsum_exp_pos (n : nat) (row : nat -> R) :
  (0 < n)%nat -> 0 < rsum n (fun j => exp (row j)).
Proof.
  intros Hn. apply rsum_pos; [exact Hn|]. intros i _. apply exp_pos.
Qed.

(** Subtracting the maximum, or any other number, from a row does not
    change its softmax. *)
Lemma softmax_shift (n : nat) (row : nat -> R) (a m : R) :
  (0 < n)%nat ->
  exp (a - m) / rsum n (fun j => exp (row j - m))
  = exp a / rsum n (fun j => exp (row j)).
Proof.
  intros Hn.
  rewrite (@rsum_ext n (fun j => exp (row j - m))
                       (fun j => exp (- m) * exp (row j))).
  2:{ intros i _. rewrite <- exp_plus. f_equal. lra. }
  rewrite rsum_scal.
  replace (a - m) with (a + - m) by lra. rewrite exp_plus.
  pose proof (exp_pos (- m)). pose proof (rsum_exp_pos n row Hn).
  field. split; lra.
Qed.

Lemma softmax_elem4 (t : tensor R) (B H S N b h i j : nat) :
  shape t = [B; H; S; N] -> (0 < N)%nat ->
  elem (softmax t) [b; h; i; j]
  = exp (elem t [b; h; i; j]) / rsum N (fun c => exp (elem t [b; h; i; c])).
Proof.
  intros Ht HN. unfold softmax. cbn [elem]. rewrite Ht.
  cbn [last removelast app].
  now rewrite softmax_shift.
Qed.

Lemma softmax_shape (t : tensor R) : shape (softmax t) = shape t.
Proof. reflexivity. Qed.

(** The entries of a softmax row lie between 0 and 1 and add up to 1. *)
Lemma softmax_row_sum (n : nat) (row : nat -> R) :
  (0 < n)%nat ->
  rsum n (fun j => exp (row j) / rsum n (fun c => exp (row c))) = 1.
Proof.
  intros Hn. pose proof (rsum_exp_pos n row Hn) as Hpos.
  rewrite (@rsum_ext n _ (fun j => / rsum n (fun c => exp (row c)) * exp (row j))).
  2:{ intros i _. unfold Rdiv. apply Rmult_comm. }
  rewrite rsum_scal. field. lra.
Qed.

Lemma softmax_row_bounds (n : nat) (row : nat -> R) (j : nat) :
  (j < n)%nat ->
  0 <= exp (row j) / rsum n (fun c => exp (row c)) <= 1.
Proof.
  intros Hj.
  assert (0 < n)%nat as Hn by lia.
  pose proof (rsum_exp_pos n row Hn) as Hpos.
  pose proof (exp_pos (row j)) as Hej.
  assert (exp (row j) <= rsum n (fun c => exp (row c))) as Hle.
  { apply (@rsum_term_le n (fun c => exp (row c)) j); [|exact Hj].
    intros i _. left. apply exp_pos. }
  now apply div_between_0_1; try lra.
Qed.

End SoftmaxRows.

(* ================================================================== *)
(** ** Kernels built by the constructor *)
(* ================================================================== *)

(** A kernel of embedding width [H * D] with [H] heads of width [D]. *)
Record kernel_wf (k : SelfAttention) (H D : nat) : Prop := mkWf {
  wf_embed : embed_size k = Z.of_nat (H * D);
  wf_heads : heads k = Z.of_nat H;
  wf_head_dim : head_dim k = Z.of_nat D;
  wf_H : 0 < H;
  wf_D : 0 < D;
  wf_qkv : shape (weight (to_qkv k)) = [3 * (H * D); H * D];
  wf_out : shape (weight (to_out k)) = [H * D; H * D];
  wf_scale : scale k = PyFloat (/ sqrt (INR D))%R
}.

Arguments wf_embed {k H D}.
Arguments wf_heads {k H D}.
Arguments wf_head_dim {k H D}.
Arguments wf_H {k H D}.
Arguments wf_D {k H D}.
Arguments wf_qkv {k H D}.
Arguments wf_out {k H D}.
Arguments wf_scale {k H D}.

(** The outcome of the constructor, case by case. *)
Lemma init_cases (e h : Z) (g : generator) :
  init e h g =
  if (h =? 0)%Z then Raise ZeroDivisionError
  else if (e <? 0)%Z then Raise RuntimeError
  else if (e / h =? 0)%Z then Raise ZeroDivisionError
  else
    let i := Z.to_nat e in
    let o := Z.to_nat (3 * e) in
    let g1 := mkGen (draws g) (cursor g + o * i + o) in
    Ok (mkSelfAttention e h (e / h)
          (mkLinear
             (mkTensor [o; i] (fun idx => draws g (cursor g + ravel [o; i] idx)))
             (mkTensor [o] (fun idx => draws g (cursor g + o * i + ravel [o] idx))))
          (if (0 <? e / h)%Z then PyFloat (/ sqrt (IZR (e / h)))%R
           else PyComplex 0%R (- / sqrt (IZR (- (e / h))))%R)
          (mkLinear
             (mkTensor [i; i]
                (fun idx => draws g1 (cursor g1 + ravel [i; i] idx)))
             (mkTensor [i]
                (fun idx => draws g1 (cursor g1 + i * i + ravel [i] idx)))),
        mkGen (draws g1) (cursor g1 + i * i + i)).
Proof.
  unfold init, py_floordiv, new_Linear, py_pow_neg_half.
  destruct (Z.eqb_spec h 0) as [|Hh]; [reflexivity|]. cbn [bind].
  destruct (Z.ltb_spec e 0) as [He|He].
  - cbn [orb]. reflexivity.
  - replace (3 * e <? 0)%Z with false by (symmetry; apply Z.ltb_ge; lia).
    cbn [orb bind].
    destruct (Z.eqb_spec (e / h) 0) as [|Hd]; [reflexivity|]. cbn [bind].
    destruct (0 <? e / h)%Z; reflexivity.
Qed.

Lemma init_wf (e h : Z) (g g' : generator) (k : SelfAttention) :
  init e h g = Ok (k, g') ->
  (0 < e)%Z -> (0 < h)%Z -> (e mod h = 0)%Z ->
  kernel_wf k (Z.to_nat h) (Z.to_nat (e / h)).
Proof.
  intros Hi He Hh Hm. rewrite init_cases in Hi.
  assert (e = h * (e / h))%Z as Hdiv.
  { pose proof (Z.div_mod e h). lia. }
  assert (0 < e / h)%Z as Hq.
  { apply Z.nle_gt. intros Hle.
    pose proof (Z.mul_nonneg_nonpos h (e / h)). lia. }
  destruct (Z.eqb_spec h 0); [lia|].
  destruct (Z.ltb_spec e 0); [lia|].
  destruct (Z.eqb_spec (e / h) 0); [lia|].
  destruct (Z.ltb_spec 0 (e / h)); [|lia].
  apply (f_equal (fun r => match r with Ok (k0, _) => k0 | Raise _ => k end))
    in Hi.
  cbv beta iota zeta in Hi. subst k.
  assert (Z.to_nat e = Z.to_nat h * Z.to_nat (e / h)) as Hnat.
  { rewrite <- Z2Nat.inj_mul by lia. now rewrite <- Hdiv. }
  constructor; cbn [embed_size heads head_dim to_qkv to_out scale weight shape].
  - rewrite <- Hnat. now rewrite Z2Nat.id by lia.
  - now rewrite Z2Nat.id by lia.
  - now rewrite Z2Nat.id by lia.
  - lia.
  - lia.
  - rewrite <- Hnat. f_equal. lia.
  - now rewrite <- Hnat.
  - do 2 f_equal. rewrite INR_IZR_INZ. now rewrite Z2Nat.id by lia.
Qed.

(* ================================================================== *)
(** ** What one call of [forward] computes *)
(* ================================================================== *)

(** Entry [o] of the combined projection of token [s] of batch [b]. *)
Definition qkv_proj (k : SelfAttention) (E : nat) (x : tensor R) (b s o : nat) : R :=
  (rsum E (fun e => elem x [b; s; e] * elem (weight (to_qkv k)) [o; e])
   + elem (bias (to_qkv k)) [o])%R.

(** [true] where the mask forbids the position. *)
Definition forbidden (mask : pyvalue) (idx : list nat) : bool :=
  match mask with
  | PyTensor m => is_zero (elem m (bindex (shape m) idx))
  | _ => false
  end.

(** No mask, or a mask that broadcasts to the shape of the scores. *)
Definition mask_fits (mask : pyvalue) (sh : list nat) : Prop :=
  match mask with
  | PyNone => True
  | PyTensor m => broadcast_shapes sh (shape m) = Some sh
  | PyBool _ => False
  end.

Record trace_spec (k : SelfAttention) (x : tensor R) (mask : pyvalue)
  (B S H D : nat) (tr : trace) : Prop := mkTraceSpec {
  ts_q : forall b h s d, b < B -> h < H -> s < S -> d < D ->
    elem (tr_q tr) [b; h; s; d] = qkv_proj k (H * D) x b s (h * D + d);
  ts_k : forall b h s d, b < B -> h < H -> s < S -> d < D ->
    elem (tr_k tr) [b; h; s; d] = qkv_proj k (H * D) x b s (H * D + (h * D + d));
  ts_v : forall b h s d, b < B -> h < H -> s < S -> d < D ->
    elem (tr_v tr) [b; h; s; d]
    = qkv_proj k (H * D) x b s (2 * (H * D) + (h * D + d));
  ts_scores_shape : shape (tr_scores tr) = [B; H; S; S];
  ts_scores : forall b h i j, b < B -> h < H -> i < S -> j < S ->
    elem (tr_scores tr) [b; h; i; j]
    = if forbidden mask [b; h; i; j] then sentinel
      else (rsum D (fun d => elem (tr_q tr) [b; h; i; d]
                             * elem (tr_k tr) [b; h; j; d])
            * real_part (scale k))%R;
  ts_attn : tr_attn tr = softmax (tr_scores tr);
  ts_context : forall b h i d, b < B -> h < H -> i < S -> d < D ->
    elem (tr_context tr) [b; h; i; d]
    = rsum S (fun j => (elem (tr_attn tr) [b; h; i; j]
                        * elem (tr_v tr) [b; h; j; d])%R);
  ts_out_shape : shape (tr_out tr) = [B; S; H * D];
  ts_out : forall b s o, b < B -> s < S ->
    elem (tr_out tr) [b; s; o]
    = (rsum (H * D)%nat
         (fun e => elem (tr_context tr) [b; (e / D)%nat; s; (e mod D)%nat]
                   * elem (weight (to_out k)) [o; e])
       + elem (bias (to_out k)) [o])%R
}.

Arguments ts_q {k x mask B S H D tr}.
Arguments ts_k {k x mask B S H D tr}.
Arguments ts_v {k x mask B S H D tr}.
Arguments ts_scores_shape {k x mask B S H D tr}.
Arguments ts_scores {k x mask B S H D tr}.
Arguments ts_attn {k x mask B S H D tr}.
Arguments ts_context {k x mask B S H D tr}.
Arguments ts_out_shape {k x mask B S H D tr}.
Arguments ts_out {k x mask B S H D tr}.

(** The part of [forward_trace] that follows the product of queries and
    keys, as a function of the tensors computed before it. *)
Definition forward_tail (self : SelfAttention) (batch_size seq_len : nat)
  (q k v qk : tensor R) (mask : pyvalue) : result trace :=
  let scores := mul_scalar qk (real_part (scale self)) in
  scores <- match mask with
            | PyNone => Ok scores
            | PyTensor m => masked_fill scores (eq_zero m) sentinel
            | PyBool _ => Raise TypeError
            end ;;
  attn_weights <- match scale self with
                  | PyFloat _ => Ok (softmax scores)
                  | PyComplex _ _ => Raise RuntimeError
                  end ;;
  context <- matmul attn_weights v ;;
  ct <- transpose 1 2 context ;;
  context' <- reshape ct [Z.of_nat batch_size; Z.of_nat seq_len;
                          embed_size self] ;;
  out <- linear (to_out self) context' ;;
  Ok (mkTrace q k v scores attn_weights context out).

(** A well-formed kernel and an input of shape (B, S, embed_size): the
    projections, the split into heads and the product of queries and keys
    succeed. *)
Lemma forward_trace_prefix (k : SelfAttention) (x : tensor R) (mask : pyvalue)
  (B S H D : nat) :
  kernel_wf k H D -> shape x = [B; S; H * D] ->
  exists q kk v qk,
    forward_trace k x mask = forward_tail k B S q kk v qk mask /\
    shape v = [B; H; S; D] /\ shape qk = [B; H; S; S] /\
    (forall b h s d, b < B -> h < H -> s < S -> d < D ->
       elem q [b; h; s; d] = qkv_proj k (H * D) x b s (h * D + d)) /\
    (forall b h s d, b < B -> h < H -> s < S -> d < D ->
       elem kk [b; h; s; d] = qkv_proj k (H * D) x b s (H * D + (h * D + d))) /\
    (forall b h s d, b < B -> h < H -> s < S -> d < D ->
       elem v [b; h; s; d]
       = qkv_proj k (H * D) x b s (2 * (H * D) + (h * D + d))) /\
    (forall b h i j, b < B -> h < H ->
       elem qk [b; h; i; j]
       = rsum D (fun d => (elem q [b; h; i; d] * elem kk [b; h; j; d])%R)).
Proof.
  intros [Hemb Hheads Hhd HH HD Hqkv Hout Hscale] Hx.
  unfold forward_trace. rewrite Hx.
  destruct (linear_spec3 (to_qkv k) x _ _ _ _ Hqkv Hx) as (y & -> & Hys & Hye).
  cbn [bind].
  assert (0 < H * D) as HE by nia.
  destruct (chunk3_spec R y B S (H * D) _ HE eq_refl Hys)
    as (c0 & c1 & c2 & -> & Hs0 & Hs1 & Hs2 & Hce).
  cbn [mapM]. rewrite Hheads, Hhd.
  destruct (split_heads_spec c0 B S H D Hs0) as (q & -> & Hqs & Hqe).
  destruct (split_heads_spec c1 B S H D Hs1) as (kk & -> & Hks & Hke).
  destruct (split_heads_spec c2 B S H D Hs2) as (v & -> & Hvs & Hve).
  cbn [bind].
  destruct (transpose_last_spec kk _ _ _ _ Hks) as (kt & -> & Hkts & Hkte).
  cbn [bind].
  destruct (matmul_spec4 q kt _ _ _ _ _ Hqs Hkts) as (qk & -> & Hqks & Hqke).
  cbn [bind].
  exists q, kk, v, qk.
  split; [reflexivity|]. split; [exact Hvs|]. split; [exact Hqks|].
  repeat split.
  - intros b h s d Hb Hh Hs Hd. rewrite Hqe by assumption.
    destruct (Hce b s (h * D + d)) as (-> & _ & _). apply Hye.
  - intros b h s d Hb Hh Hs Hd. rewrite Hke by assumption.
    destruct (Hce b s (h * D + d)) as (_ & -> & _). apply Hye.
  - intros b h s d Hb Hh Hs Hd. rewrite Hve by assumption.
    destruct (Hce b s (h * D + d)) as (_ & _ & ->). apply Hye.
  - intros b h i j Hb Hh. rewrite Hqke by assumption.
    apply rsum_ext. intros d _. now rewrite Hkte.
Qed.

(** A well-formed kernel, an input of shape (B, S, embed_size) and a mask
    that fits: the call succeeds and computes the trace described by
    [trace_spec]. *)
Lemma forward_trace_ok (k : SelfAttention) (x : tensor R) (mask : pyvalue)
  (B S H D : nat) :
  kernel_wf k H D -> shape x = [B; S; H * D] -> mask_fits mask [B; H; S; S] ->
  exists tr, forward_trace k x mask = Ok tr /\ trace_spec k x mask B S H D tr.
Proof.
  intros Hwf Hx Hmask.
  destruct (forward_trace_prefix k x mask B S H D Hwf Hx)
    as (q & kk & v & qk & -> & Hvs & Hqks & Hqe & Hke & Hve & Hqke).
  destruct Hwf as [Hemb Hheads Hhd HH HD Hqkv Hout Hscale].
  unfold forward_tail. rewrite Hscale. cbn [real_part].
  assert (exists sc,
    match mask with
    | PyTensor m => masked_fill (mul_scalar qk (/ sqrt (INR D))) (eq_zero m) sentinel
    | PyNone => Ok (mul_scalar qk (/ sqrt (INR D)))
    | PyBool _ => Raise TypeError
    end = Ok sc /\ shape sc = [B; H; S; S] /\
    forall b h i j, b < B -> h < H -> i < S -> j < S ->
      elem sc [b; h; i; j]
      = if forbidden mask [b; h; i; j] then sentinel
        else (elem qk [b; h; i; j] * / sqrt (INR D))%R) as (sc & -> & Hscs & Hsce).
  { destruct mask as [m| |bb]; cbn [mask_fits] in Hmask.
    - destruct (masked_fill_spec (mul_scalar qk (/ sqrt (INR D))) m
                  [B; H; S; S] Hqks Hmask) as (sc & Hsc & Hscs & Hsce).
      exists sc. split; [exact Hsc|]. split; [exact Hscs|].
      intros b h i j Hb Hh Hi Hj. cbn [forbidden].
      now rewrite Hsce by (apply in_range_4; assumption).
    - eexists. split; [reflexivity|]. split; [exact Hqks|].
      intros. reflexivity.
    - contradiction. }
  cbn [bind].
  assert (shape (softmax sc) = [B; H; S; S]) as Has by exact Hscs.
  destruct (matmul_spec4 (softmax sc) v _ _ _ _ _ Has Hvs) as (ctx & -> & Hcs & Hcte).
  cbn [bind].
  destruct (transpose_12_spec ctx _ _ _ _ Hcs) as (ct & -> & Hcts & Hctte).
  cbn [bind]. rewrite Hemb.
  destruct (reshape_merge_spec ct _ _ _ _ Hcts) as (c' & -> & Hc's & Hc'e).
  cbn [bind].
  destruct (linear_spec3 (to_out k) c' _ _ _ _ Hout Hc's) as (out & -> & Hos & Hoe).
  cbn [bind].
  eexists. split; [reflexivity|].
  constructor; cbn [tr_q tr_k tr_v tr_scores tr_attn tr_context tr_out];
    try assumption.
  - intros b h i j Hb Hh Hi Hj. rewrite Hsce by assumption.
    destruct (forbidden mask [b; h; i; j]); [reflexivity|].
    rewrite Hqke by assumption. f_equal. now rewrite Hscale.
  - reflexivity.
  - intros b h i d Hb Hh Hi Hd. now apply Hcte.
  - intros b s o Hb Hs. rewrite Hoe. f_equal.
    apply rsum_ext. intros e He.
    rewrite Hc'e by assumption. now rewrite Hctte.
Qed.

(** A mask whose shape does not broadcast with that of the scores makes
    [masked_fill] raise. *)
Lemma forward_trace_mask_mismatch (k : SelfAttention) (x m : tensor R)
  (B S H D : nat) :
  kernel_wf k H D -> shape x = [B; S; H * D] ->
  broadcast_shapes [B; H; S; S] (shape m) = None ->
  forward_trace k x (PyTensor m) = Raise RuntimeError.
Proof.
  intros Hwf Hx Hm.
  destruct (forward_trace_prefix k x (PyTensor m) B S H D Hwf Hx)
    as (q & kk & v & qk & -> & _ & Hqks & _).
  unfold forward_tail, masked_fill. cbn [mul_scalar eq_zero shape].
  now rewrite Hqks, Hm.
Qed.

(** The part of [forward] that follows the product of queries and keys,
    for any contents of the value vectors and of the product: with a
    well-formed kernel, values of shape (B, H, S, D), a product of shape
    (B, H, S, S) and a mask that fits, it succeeds; the scores are the
    scaled product with the fill value at the forbidden positions, the
    attention weights their softmax, the context the weighted sum of the
    values, and the output the projection of the merged context. *)
Lemma forward_tail_ok (k : SelfAttention) (q kk v qk : tensor R)
  (mask : pyvalue) (B S H D : nat) :
  kernel_wf k H D -> shape v = [B; H; S; D] -> shape qk = [B; H; S; S] ->
  mask_fits mask [B; H; S; S] ->
  exists tr,
    forward_tail k B S q kk v qk mask = Ok tr /\
    tr_v tr = v /\
    shape (tr_scores tr) = [B; H; S; S] /\
    (forall b h i j, b < B -> h < H -> i < S -> j < S ->
       elem (tr_scores tr) [b; h; i; j]
       = if forbidden mask [b; h; i; j] then sentinel
         else (elem qk [b; h; i; j] * / sqrt (INR D))%R) /\
    tr_attn tr = softmax (tr_scores tr) /\
    (forall b h i d, b < B -> h < H -> i < S -> d < D ->
       elem (tr_context tr) [b; h; i; d]
       = rsum S (fun j => (elem (tr_attn tr) [b; h; i; j]
                           * elem v [b; h; j; d])%R)) /\
    shape (tr_out tr) = [B; S; H * D] /\
    (forall b s o, b < B -> s < S ->
       elem (tr_out tr) [b; s; o]
       = (rsum (H * D)%nat
            (fun e => elem (tr_context tr) [b; (e / D)%nat; s; (e mod D)%nat]
                      * elem (weight (to_out k)) [o; e])
          + elem (bias (to_out k)) [o])%R).
Proof.
  intros Hwf Hvs Hqks Hmask.
  destruct Hwf as [Hemb Hheads Hhd HH HD Hqkv Hout Hscale].
  unfold forward_tail. rewrite Hscale. cbn [real_part].
  assert (exists sc,
    match mask with
    | PyTensor m => masked_fill (mul_scalar qk (/ sqrt (INR D))) (eq_zero m) sentinel
    | PyNone => Ok (mul_scalar qk (/ sqrt (INR D)))
    | PyBool _ => Raise TypeError
    end = Ok sc /\ shape sc = [B; H; S; S] /\
    forall b h i j, b < B -> h < H -> i < S -> j < S ->
      elem sc [b; h; i; j]
      = if forbidden mask [b; h; i; j] then sentinel
        else (elem qk [b; h; i; j] * / sqrt (INR D))%R) as (sc & -> & Hscs & Hsce).
  { destruct mask as [m| |bb]; cbn [mask_fits] in Hmask.
    - destruct (masked_fill_spec (mul_scalar qk (/ sqrt (INR D))) m
                  [B; H; S; S] Hqks Hmask) as (sc & Hsc & Hscs & Hsce).
      exists sc. split; [exact Hsc|]. split; [exact Hscs|].
      intros b h i j Hb Hh Hi Hj. cbn [forbidden].
      now rewrite Hsce by (apply in_range_4; assumption).
    - eexists. split; [reflexivity|]. split; [exact Hqks|].
      intros. reflexivity.
    - contradiction. }
  cbn [bind].
  assert (shape (softmax sc) = [B; H; S; S]) as Has by exact Hscs.
  destruct (matmul_spec4 (softmax sc) v _ _ _ _ _ Has Hvs) as (ctx & -> & Hcs & Hcte).
  cbn [bind].
  destruct (transpose_12_spec ctx _ _ _ _ Hcs) as (ct & -> & Hcts & Hctte).
  cbn [bind]. rewrite Hemb.
  destruct (reshape_merge_spec ct _ _ _ _ Hcts) as (c' & -> & Hc's & Hc'e).
  cbn [bind].
  destruct (linear_spec3 (to_out k) c' _ _ _ _ Hout Hc's) as (out & -> & Hos & Hoe).
  cbn [bind].
  eexists. split; [reflexivity|].
  cbn [tr_v tr_scores tr_attn tr_context tr_out].
  split; [reflexivity|]. split; [exact Hscs|]. split; [exact Hsce|].
  split; [reflexivity|].
  split; [intros b h i d Hb Hh Hi Hd; now apply Hcte|].
  split; [exact Hos|].
  intros b s o Hb Hs. rewrite Hoe. f_equal.
  apply rsum_ext. intros e He.
  rewrite Hc'e by assumption. now rewrite Hctte.
Qed.

(* ================================================================== *)
(** ** A small kernel used in the examples *)
(* ================================================================== *)

(** A generator delivering the constant 1, and the kernel of width 2 with
    one head that the constructor builds from it. *)
Definition ones_gen : generator := mkGen (fun _ => 1%R) 0.

Definition ones_kernel : SelfAttention :=
  mkSelfAttention 2 1 2
    (mkLinear (mkTensor [6; 2] (fun _ => 1%R)) (mkTensor [6] (fun _ => 1%R)))
    (PyFloat (/ sqrt 2)%R)
    (mkLinear (mkTensor [2; 2] (fun _ => 1%R)) (mkTensor [2] (fun _ => 1%R))).

Lemma ones_kernel_built :
  init 2 1 ones_gen = Ok (ones_kernel, mkGen (fun _ => 1%R) 24).
Proof. reflexivity. Qed.

(** An input of one batch and three tokens. *)
Definition ones_x : tensor R := mkTensor [1; 3; 2] (fun _ => 1%R).

(* ================================================================== *)
(** ** Shape preservation *)
(* ================================================================== *)

(** C1.  A kernel built with positive [embed_size] and [heads], the latter
    dividing the former, maps an input of shape (B, S, embed_size), S >= 1,
    with no mask or a mask that fits, to an output of the same shape.
    Feature [f] of the merged context is component [f mod head_dim] of head
    [f / head_dim], the heads being laid side by side along the feature
    axis, and the output projection maps embed_size features to
    embed_size features. *)
Theorem forward_preserves_shape (e h : Z) (g g' : generator)
  (k : SelfAttention) (x : tensor R) (mask : pyvalue) (B S : nat) :
  init e h g = Ok (k, g') ->
  (0 < e)%Z -> (0 < h)%Z -> (e mod h = 0)%Z ->
  shape x = [B; S; Z.to_nat e] -> 1 <= S ->
  mask_fits mask [B; Z.to_nat h; S; S] ->
  exists tr,
    forward_trace k x mask = Ok tr /\
    forward k x mask = Ok (tr_out tr) /\
    shape (tr_out tr) = shape x /\
    shape (weight (to_out k)) = [Z.to_nat e; Z.to_nat e] /\
    forall b s o, b < B -> s < S -> o < Z.to_nat e ->
      elem (tr_out tr) [b; s; o]
      = (rsum (Z.to_nat e)
           (fun f => elem (tr_context tr)
                       [b; (f / Z.to_nat (e / h))%nat; s;
                        (f mod Z.to_nat (e / h))%nat]
                     * elem (weight (to_out k)) [o; f])
         + elem (bias (to_out k)) [o])%R.
Proof.
  intros Hi He Hh Hm Hx HS Hmask.
  pose proof (init_wf _ _ _ _ _ Hi He Hh Hm) as Hwf.
  assert (Z.to_nat e = Z.to_nat h * Z.to_nat (e / h)) as HE.
  { pose proof (wf_embed Hwf) as Hemb.
    rewrite init_cases in Hi.
    destruct (h =? 0)%Z; [discriminate|].
    destruct (e <? 0)%Z; [discriminate|].
    destruct (e / h =? 0)%Z; [discriminate|].
    apply (f_equal (fun r => match r with
                             | Ok (k0, _) => embed_size k0
                             | Raise _ => e end)) in Hi.
    cbv beta iota zeta in Hi. cbn [embed_size] in Hi.
    rewrite <- Hi in Hemb. apply (f_equal Z.to_nat) in Hemb.
    now rewrite Nat2Z.id in Hemb. }
  rewrite HE in Hx.
  destruct (forward_trace_ok _ _ _ _ _ _ _ Hwf Hx Hmask) as (tr & Htr & Hts).
  exists tr. split; [exact Htr|].
  split; [unfold forward; now rewrite Htr|].
  split; [rewrite Hx; exact (ts_out_shape Hts)|].
  split; [rewrite HE; exact (wf_out Hwf)|].
  intros b s o Hb Hs Ho. rewrite HE. now apply (ts_out Hts).
Qed.

Lemma forward_preserves_shape_witness :
  exists tr,
    forward_trace ones_kernel ones_x PyNone = Ok tr /\
    forward ones_kernel ones_x PyNone = Ok (tr_out tr) /\
    shape (tr_out tr) = [1; 3; 2].
Proof.
  destruct (forward_preserves_shape 2 1 ones_gen _ ones_kernel ones_x PyNone
              1 3 ones_kernel_built ltac:(lia) ltac:(lia) eq_refl eq_refl
              ltac:(lia) I) as (tr & H1 & H2 & H3 & _).
  exists tr. repeat split; assumption.
Defined.

Lemma ones_kernel_wf : kernel_wf ones_kernel 1 2.
Proof.
  exact (init_wf 2 1 _ _ _ ones_kernel_built ltac:(lia) ltac:(lia) eq_refl).
Qed.

(** The causal mask on three positions: query i may attend to keys j <= i. *)
Definition causal_mask : tensor R :=
  mkTensor [3; 3]
    (fun idx => match idx with
                | [i; j] => if j <=? i then 1%R else 0%R
                | _ => 0%R
                end).

(* ================================================================== *)
(** ** The masking law *)
(* ================================================================== *)

Section Masking.
Local Open Scope R_scope.

Lemma is_zero_0 : is_zero 0 = true.
Proof. unfold is_zero. destruct (Req_dec_T 0 0); [reflexivity|lra]. Qed.

Lemma is_zero_1 : is_zero 1 = false.
Proof. unfold is_zero. destruct (Req_dec_T 1 0); [lra|reflexivity]. Qed.

(** The weight that row (b, h, i) of the attention puts on forbidden keys. *)
Definition forbidden_mass (mask : pyvalue) (attn : tensor R) (S b h i : nat) : R :=
  rsum S (fun j => if forbidden mask [b; h; i; j]
                   then elem attn [b; h; i; j] else 0).

(** The number of forbidden keys of a row. *)
Definition forbidden_count (mask : pyvalue) (S b h i : nat) : R :=
  rsum S (fun j => if forbidden mask [b; h; i; j] then 1 else 0).

(** The sum of the exponentials of the scores of the allowed keys. *)
Definition allowed_exp_sum (mask : pyvalue) (scores : tensor R)
  (S b h i : nat) : R :=
  rsum S (fun j => if forbidden mask [b; h; i; j]
                   then 0 else exp (elem scores [b; h; i; j])).

Definition has_allowed_key (mask : pyvalue) (S b h i : nat) : Prop :=
  exists j, (j < S)%nat /\ forbidden mask [b; h; i; j] = false.

(** The masking law as the specification words it, for one call. *)
Definition masking_law (k : SelfAttention) (x : tensor R) (mask : pyvalue)
  (B S H : nat) : Prop :=
  forall tr, forward_trace k x mask = Ok tr ->
    (forall b h i j, (b < B)%nat -> (h < H)%nat -> (i < S)%nat -> (j < S)%nat ->
       forbidden mask [b; h; i; j] = true ->
       elem (tr_scores tr) [b; h; i; j] = sentinel) /\
    (forall b h i, (b < B)%nat -> (h < H)%nat -> (i < S)%nat ->
       has_allowed_key mask S b h i ->
       forbidden_mass mask (tr_attn tr) S b h i <= 1e-6).

Lemma ratio_small_iff (F A : R) :
  0 <= F -> 0 <= A -> 0 < F + A ->
  (F / (F + A) <= 1e-6 <-> 999999 * F <= A).
Proof.
  intros HF HA HZ.
  assert (F = F / (F + A) * (F + A)) as Hr by (field; lra).
  set (r := F / (F + A)) in *.
  split; intros Hle.
  - assert (0 <= (1e-6 - r) * (F + A)) by (apply Rmult_le_pos; lra). lra.
  - destruct (Rle_lt_dec r 1e-6) as [|Hgt]; [assumption|].
    assert (0 < (r - 1e-6) * (F + A)) by (apply Rmult_lt_0_compat; lra). lra.
Qed.

(** The mass on forbidden keys, in closed form. *)
Lemma forbidden_mass_closed (k : SelfAttention) (x : tensor R) (mask : pyvalue)
  (B S H D : nat) (tr : trace) (b h i : nat) :
  trace_spec k x mask B S H D tr ->
  (b < B)%nat -> (h < H)%nat -> (i < S)%nat ->
  let F := forbidden_count mask S b h i * exp sentinel in
  let A := allowed_exp_sum mask (tr_scores tr) S b h i in
  0 <= F /\ 0 <= A /\ 0 < F + A /\
  forbidden_mass mask (tr_attn tr) S b h i = F / (F + A).
Proof.
  intros Hts Hb Hh Hi F A.
  assert (0 < S)%nat as HS by lia.
  pose proof (exp_pos sentinel) as Hes.
  set (s := fun j => elem (tr_scores tr) [b; h; i; j]).
  assert (rsum S (fun j => if forbidden mask [b; h; i; j] then exp (s j) else 0)
          = F) as HF.
  { unfold F, forbidden_count. rewrite Rmult_comm, <- rsum_scal.
    apply rsum_ext. intros j Hj. unfold s.
    rewrite (ts_scores Hts) by assumption.
    destruct (forbidden mask [b; h; i; j]); lra. }
  assert (rsum S (fun j => exp (s j)) = F + A) as HZ.
  { rewrite (rsum_split S (fun j => forbidden mask [b; h; i; j])).
    now rewrite HF. }
  assert (0 <= F) as HF0.
  { rewrite <- HF. apply rsum_nonneg. intros j _.
    destruct (forbidden mask [b; h; i; j]); [left; apply exp_pos|lra]. }
  assert (0 <= A) as HA0.
  { apply rsum_nonneg. intros j _.
    destruct (forbidden mask [b; h; i; j]); [lra|left; apply exp_pos]. }
  assert (0 < F + A) as Hpos by (rewrite <- HZ; now apply rsum_exp_pos).
  repeat split; try assumption.
  unfold forbidden_mass. rewrite (ts_attn Hts).
  rewrite (rsum_ext S _
    (fun j => / (F + A)
              * (if forbidden mask [b; h; i; j] then exp (s j) else 0))).
  - rewrite rsum_scal, HF. field. lra.
  - intros j Hj.
    rewrite (softmax_elem4 _ B H S S) by (try exact (ts_scores_shape Hts); lia).
    unfold s in HZ |- *. rewrite HZ.
    destruct (forbidden mask [b; h; i; j]); [field; lra|lra].
Qed.

End Masking.

(* ================================================================== *)
(** ** A kernel whose scores fall below the fill value *)
(* ================================================================== *)

(** A generator whose first two draws are 1 and -1 and whose later draws
    are 0: the kernel of width 1 built from it has query weight 1, key
    weight -1 and no bias, so that the score of query i and key j is
    - x_i * x_j. *)
Definition skew_draws (n : nat) : R :=
  match n with
  | 0 => 1%R
  | 1 => (-1)%R
  | _ => 0%R
  end.

Definition skew_gen : generator := mkGen skew_draws 0.

Definition skew_kernel : SelfAttention :=
  mkSelfAttention 1 1 1
    (mkLinear (mkTensor [3; 1] (fun idx => skew_draws (ravel [3; 1] idx)))
              (mkTensor [3] (fun idx => skew_draws (3 + ravel [3] idx))))
    (PyFloat (/ sqrt 1)%R)
    (mkLinear (mkTensor [1; 1] (fun idx => skew_draws (6 + ravel [1; 1] idx)))
              (mkTensor [1] (fun idx => skew_draws (7 + ravel [1] idx)))).

Lemma skew_kernel_built : init 1 1 skew_gen = Ok (skew_kernel, mkGen skew_draws 8).
Proof. reflexivity. Qed.

Lemma skew_kernel_wf : kernel_wf skew_kernel 1 1.
Proof.
  exact (init_wf 1 1 _ _ _ skew_kernel_built ltac:(lia) ltac:(lia) eq_refl).
Qed.

(** Two tokens, 1 and 2e9. *)
Definition skew_x : tensor R :=
  mkTensor [1; 2; 1]
    (fun idx => match idx with
                | [_; 0; _] => 1%R
                | _ => 2e9%R
                end).

(** Query 0 may attend to key 1 only; query 1 to both keys. *)
Definition skew_mask : tensor R :=
  mkTensor [2; 2]
    (fun idx => match idx with
                | [0; 0] => 0%R
                | _ => 1%R
                end).

Section MaskingLaw.
Local Open Scope R_scope.

Lemma rsum_1 (f : nat -> R) : rsum 1 f = f 0%nat.
Proof. unfold rsum. cbn [seq map list_sum_R fold_right]. lra. Qed.

Lemma rsum_2 (f : nat -> R) : rsum 2 f = f 0%nat + f 1%nat.
Proof. unfold rsum. cbn [seq map list_sum_R fold_right]. lra. Qed.

Lemma skew_forbidden_00 : forbidden (PyTensor skew_mask) [0; 0; 0; 0]%nat = true.
Proof. exact is_zero_0. Qed.

Lemma skew_forbidden_01 : forbidden (PyTensor skew_mask) [0; 0; 0; 1]%nat = false.
Proof. exact is_zero_1. Qed.

(** The score of query 0 and key 1 is -2e9, below the fill value. *)
Lemma skew_score_01 (tr : trace) :
  trace_spec skew_kernel skew_x (PyTensor skew_mask) 1 2 1 1 tr ->
  elem (tr_scores tr) [0; 0; 0; 1]%nat = -2e9.
Proof.
  intros Hts.
  rewrite (ts_scores Hts) by lia. rewrite skew_forbidden_01.
  rewrite rsum_1.
  rewrite (ts_q Hts), (ts_k Hts) by lia.
  unfold qkv_proj. rewrite !rsum_1.
  cbn [skew_kernel to_qkv weight bias elem skew_x scale real_part].
  cbn [ravel numel fold_right Nat.mul Nat.add skew_draws].
  rewrite sqrt_1. lra.
Qed.


End MaskingLaw.

Section MaskingLawAmended.
Local Open Scope R_scope.

Lemma forbidden_count_le (mask : pyvalue) (S b h i : nat) :
  0 <= forbidden_count mask S b h i <= INR S.
Proof.
  unfold forbidden_count. split.
  - apply rsum_nonneg. intros j _. destruct (forbidden _ _); lra.
  - rewrite <- (Rmult_1_r (INR S)), <- rsum_const.
    apply rsum_le. intros j _. destruct (forbidden _ _); lra.
Qed.

Lemma exp_neg_le (t : R) : 0 <= t -> exp (- t) <= / (1 + t).
Proof.
  intros Ht. rewrite exp_Ropp.
  pose proof (exp_ineq1_le t) as Hle.
  apply Rinv_le_contravar; lra.
Qed.

(** The largest finite number of the format of the tensors (IEEE 754
    binary32): 2^128 - 2^104. *)
Definition float32_max : R := 340282346638528859811704183484516925440.

(** Every score of row (b, h, i) is a finite number of that format. *)
Definition row_in_float_range (scores : tensor R) (S b h i : nat) : Prop :=
  forall j, (j < S)%nat -> Rabs (elem scores [b; h; i; j]) <= float32_max.

(** The weight on the forbidden keys of a row of a softmax, in closed form,
    for any tensor of scores that holds the fill value at the forbidden
    positions of the row. *)
Lemma softmax_forbidden_mass (mask : pyvalue) (scores : tensor R)
  (B H S b h i : nat) :
  shape scores = [B; H; S; S] -> (0 < S)%nat ->
  (forall c, (c < S)%nat -> forbidden mask [b; h; i; c] = true ->
     elem scores [b; h; i; c] = sentinel) ->
  let F := forbidden_count mask S b h i * exp sentinel in
  let A := allowed_exp_sum mask scores S b h i in
  0 <= F /\ 0 <= A /\ 0 < F + A /\
  forbidden_mass mask (softmax scores) S b h i = F / (F + A).
Proof.
  intros Hsh HS Hfill F A.
  pose proof (exp_pos sentinel) as Hes.
  set (s := fun j => elem scores [b; h; i; j]).
  assert (rsum S (fun j => if forbidden mask [b; h; i; j] then exp (s j) else 0)
          = F) as HF.
  { unfold F, forbidden_count. rewrite Rmult_comm, <- rsum_scal.
    apply rsum_ext. intros j Hj. unfold s.
    destruct (forbidden mask [b; h; i; j]) eqn:Hf; [|lra].
    rewrite (Hfill j Hj Hf). lra. }
  assert (rsum S (fun j => exp (s j)) = F + A) as HZ.
  { rewrite (rsum_split S (fun j => forbidden mask [b; h; i; j])).
    now rewrite HF. }
  assert (0 <= F) as HF0.
  { rewrite <- HF. apply rsum_nonneg. intros j _.
    destruct (forbidden mask [b; h; i; j]); [left; apply exp_pos|lra]. }
  assert (0 <= A) as HA0.
  { apply rsum_nonneg. intros j _.
    destruct (forbidden mask [b; h; i; j]); [lra|left; apply exp_pos]. }
  assert (0 < F + A) as Hpos by (rewrite <- HZ; now apply rsum_exp_pos).
  repeat split; try assumption.
  unfold forbidden_mass.
  rewrite (rsum_ext S _
    (fun j => / (F + A)
              * (if forbidden mask [b; h; i; j] then exp (s j) else 0))).
  - rewrite rsum_scal, HF. field. lra.
  - intros j Hj.
    rewrite (softmax_elem4 _ B H S S) by assumption.
    unfold s in HZ |- *. rewrite HZ.
    destruct (forbidden mask [b; h; i; j]); [field; lra|lra].
Qed.

(** One allowed key whose score is at least -1e9 + 1e6 * S leaves at most
    1e-6 of the weight of the row to the forbidden keys. *)
Lemma softmax_forbidden_mass_small (mask : pyvalue) (scores : tensor R)
  (B H S b h i j : nat) :
  shape scores = [B; H; S; S] -> (j < S)%nat ->
  (forall c, (c < S)%nat -> forbidden mask [b; h; i; c] = true ->
     elem scores [b; h; i; c] = sentinel) ->
  forbidden mask [b; h; i; j] = false ->
  sentinel + 1e6 * INR S <= elem scores [b; h; i; j] ->
  forbidden_mass mask (softmax scores) S b h i <= 1e-6.
Proof.
  intros Hsh Hj Hfill Hf Hscore.
  assert (0 < S)%nat as HS by lia.
  destruct (softmax_forbidden_mass mask scores B H S b h i Hsh HS Hfill)
    as (HF & HA & HZ & ->).
  apply ratio_small_iff; try assumption.
  set (s := elem scores [b; h; i; j]) in *.
  assert (exp s <= allowed_exp_sum mask scores S b h i) as Hterm.
  { unfold allowed_exp_sum.
    pose proof (rsum_term_le S
      (fun c => if forbidden mask [b; h; i; c] then 0
                else exp (elem scores [b; h; i; c])) j) as Hle.
    cbv beta in Hle. rewrite Hf in Hle. apply Hle; [|exact Hj].
    intros c _.
    destruct (forbidden mask [b; h; i; c]); [lra|left; apply exp_pos]. }
  pose proof (forbidden_count_le mask S b h i) as [Hc0 HcS].
  pose proof (exp_pos s) as Hes. pose proof (exp_pos sentinel) as Hen.
  assert (0 < INR S) as HSpos by (apply lt_0_INR; lia).
  (* exp sentinel = exp s * exp (sentinel - s), and the last factor is
     below 1 / (1 + 1e6 * S) *)
  assert (exp sentinel = exp s * exp (- (s - sentinel))) as Hsplit.
  { rewrite <- exp_plus. f_equal. lra. }
  assert (exp (- (s - sentinel)) <= / (1 + (s - sentinel))) as Hdecay
    by (apply exp_neg_le; lra).
  assert (/ (1 + (s - sentinel)) <= / (1 + 1e6 * INR S)) as Hinv
    by (apply Rinv_le_contravar; lra).
  assert (INR S * / (1 + 1e6 * INR S) <= 1e-6) as Hsmall.
  { apply (Rmult_le_reg_r (1 + 1e6 * INR S)); [lra|].
    rewrite Rmult_assoc, Rinv_l by lra. lra. }
  assert (0 < exp (- (s - sentinel))) as Hd0 by apply exp_pos.
  assert (forbidden_count mask S b h i * exp (- (s - sentinel))
          <= 1e-6) as Hbound.
  { apply Rle_trans with (INR S * / (1 + 1e6 * INR S)); [|exact Hsmall].
    apply Rmult_le_compat; lra. }
  rewrite Hsplit.
  apply Rle_trans with (exp s); [|exact Hterm].
  replace (999999 * (forbidden_count mask S b h i
                     * (exp s * exp (- (s - sentinel)))))
    with (exp s * (999999 * (forbidden_count mask S b h i
                             * exp (- (s - sentinel))))) by ring.
  rewrite <- (Rmult_1_r (exp s)) at 2.
  apply Rmult_le_compat_l; lra.
Qed.



End MaskingLawAmended.

(* ================================================================== *)
(** ** Rows whose keys are all forbidden *)
(* ================================================================== *)

Definition raises {A : Type} (c : result A) : Prop := exists e, c = Raise e.

(** A mask that forbids every key of every query. *)
Definition zero_mask : tensor R := mkTensor [3; 3] (fun _ => 0%R).

Section AllMasked.
Local Open Scope R_scope.

Definition row_all_forbidden (mask : pyvalue) (S b h i : nat) : Prop :=
  forall j, (j < S)%nat -> forbidden mask [b; h; i; j] = true.

Lemma zero_mask_forbids (b h i : nat) :
  row_all_forbidden (PyTensor zero_mask) 3 b h i.
Proof. intros j _. exact is_zero_0. Qed.

(** C4, refuted as worded: with a mask that forbids every key the call
    raises nothing. *)
Lemma all_masked_counterexample :
  row_all_forbidden (PyTensor zero_mask) 3 0 0 0 /\
  ~ raises (forward ones_kernel ones_x (PyTensor zero_mask)).
Proof.
  split; [apply zero_mask_forbids|].
  destruct (forward_trace_ok ones_kernel ones_x (PyTensor zero_mask) 1 3 1 2
              ones_kernel_wf eq_refl eq_refl) as (tr & Htr & _).
  intros [e He]. unfold forward in He. rewrite Htr in He. discriminate.
Qed.

(** C4, amended.  When the mask broadcasts to the shape
    (B, heads, S, S) of the scores and forbids every key of some row, the
    call raises nothing and returns an output of the shape of the input. *)
Theorem all_masked_row_returns (k : SelfAttention) (x m : tensor R)
  (B S H D b h i : nat) :
  kernel_wf k H D -> shape x = [B; S; (H * D)%nat] ->
  broadcast_shapes [B; H; S; S] (shape m) = Some [B; H; S; S] ->
  (b < B)%nat -> (h < H)%nat -> (i < S)%nat ->
  row_all_forbidden (PyTensor m) S b h i ->
  ~ raises (forward k x (PyTensor m)) /\
  exists out, forward k x (PyTensor m) = Ok out /\ shape out = shape x.
Proof.
  intros Hwf Hx Hm Hb Hh Hi Hrow.
  destruct (forward_trace_ok k x (PyTensor m) B S H D Hwf Hx Hm)
    as (tr & Htr & Hts).
  unfold forward. rewrite Htr. cbn [bind]. split.
  - intros [e He]. discriminate.
  - exists (tr_out tr). split; [reflexivity|].
    rewrite Hx. exact (ts_out_shape Hts).
Qed.

Lemma all_masked_row_returns_witness :
  exists out, forward ones_kernel ones_x (PyTensor zero_mask) = Ok out /\
              shape out = [1; 3; 2]%nat.
Proof.
  exact (proj2 (all_masked_row_returns ones_kernel ones_x zero_mask 1 3 1 2
                  0 0 0 ones_kernel_wf eq_refl eq_refl ltac:(lia) ltac:(lia)
                  ltac:(lia) (zero_mask_forbids 0 0 0))).
Defined.

(** Two batch elements of three tokens, and a mask of zeros with one
    3 x 3 matrix per batch element. *)
Definition ones_x2 : tensor R := mkTensor [2; 3; 2]%nat (fun _ => 1).

Definition zero_mask_per_batch : tensor R := mkTensor [2; 3; 3]%nat (fun _ => 0).

(** C10, refuted as worded: the mask [zero_mask_per_batch] forbids every
    key of every row, and the call fails.  The leading axis of the mask is
    aligned with the heads, of which the kernel has one: [masked_fill]
    enlarges the scores to (2, 2, 3, 3) and the final [reshape] raises. *)
Lemma all_masked_may_raise :
  (forall b h i, row_all_forbidden (PyTensor zero_mask_per_batch) 3 b h i) /\
  forward ones_kernel ones_x2 (PyTensor zero_mask_per_batch)
  = Raise RuntimeError.
Proof.
  split.
  - intros b h i j _. exact is_zero_0.
  - vm_compute. reflexivity.
Qed.

(** C10, amended.  When the mask broadcasts to the shape (B, heads, S, S)
    of the scores and forbids every key of row (b, h, i), the call
    succeeds; every score of the row is the fill value -1e9, every
    attention weight of the row is 1/S, and the context of the row is the
    sum of the value vectors of the head, each with weight 1/S: their
    unweighted mean. *)
Theorem all_masked_row_is_uniform (k : SelfAttention) (x m : tensor R)
  (B S H D b h i : nat) :
  kernel_wf k H D -> shape x = [B; S; (H * D)%nat] ->
  broadcast_shapes [B; H; S; S] (shape m) = Some [B; H; S; S] ->
  (b < B)%nat -> (h < H)%nat -> (i < S)%nat ->
  row_all_forbidden (PyTensor m) S b h i ->
  exists tr,
    forward_trace k x (PyTensor m) = Ok tr /\
    forward k x (PyTensor m) = Ok (tr_out tr) /\
    shape (tr_out tr) = shape x /\
    (forall j, (j < S)%nat ->
       elem (tr_scores tr) [b; h; i; j] = sentinel /\
       elem (tr_attn tr) [b; h; i; j] = 1 / INR S) /\
    (forall d, (d < D)%nat ->
       elem (tr_context tr) [b; h; i; d]
       = rsum S (fun j => 1 / INR S * elem (tr_v tr) [b; h; j; d]) /\
       elem (tr_context tr) [b; h; i; d]
       = rsum S (fun j => elem (tr_v tr) [b; h; j; d]) / INR S).
Proof.
  intros Hwf Hx Hm Hb Hh Hi Hrow.
  destruct (forward_trace_ok k x (PyTensor m) B S H D Hwf Hx Hm)
    as (tr & Htr & Hts).
  exists tr. split; [exact Htr|].
  split; [unfold forward; now rewrite Htr|].
  split; [rewrite Hx; exact (ts_out_shape Hts)|].
  assert (0 < INR S) as HS by (apply lt_0_INR; lia).
  pose proof (exp_pos sentinel) as Hes.
  assert (forall j, (j < S)%nat -> elem (tr_scores tr) [b; h; i; j] = sentinel)
    as Hfill.
  { intros j Hj. rewrite (ts_scores Hts) by assumption.
    now rewrite (Hrow j Hj). }
  assert (forall j, (j < S)%nat -> elem (tr_attn tr) [b; h; i; j] = 1 / INR S)
    as Hunif.
  { intros j Hj. rewrite (ts_attn Hts).
    rewrite (softmax_elem4 _ B H S S) by (try exact (ts_scores_shape Hts); lia).
    rewrite (rsum_ext S _ (fun _ => exp sentinel))
      by (intros c Hc; now rewrite Hfill).
    rewrite rsum_const, Hfill by assumption. field. lra. }
  split.
  - intros j Hj. split; [now apply Hfill|now apply Hunif].
  - intros d Hd.
    assert (elem (tr_context tr) [b; h; i; d]
            = rsum S (fun j => 1 / INR S * elem (tr_v tr) [b; h; j; d])) as Hc.
    { rewrite (ts_context Hts) by assumption.
      apply rsum_ext. intros j Hj. now rewrite Hunif. }
    split; [exact Hc|].
    rewrite Hc, rsum_scal. field. lra.
Qed.

Lemma all_masked_row_is_uniform_witness :
  exists tr,
    forward_trace ones_kernel ones_x (PyTensor zero_mask) = Ok tr /\
    elem (tr_attn tr) [0; 0; 2; 1]%nat = 1 / 3.
Proof.
  destruct (all_masked_row_is_uniform ones_kernel ones_x zero_mask 1 3 1 2
              0 0 2 ones_kernel_wf eq_refl eq_refl ltac:(lia) ltac:(lia)
              ltac:(lia) (zero_mask_forbids 0 0 2))
    as (tr & Htr & _ & _ & Hrow & _).
  exists tr. split; [exact Htr|].
  destruct (Hrow 1%nat ltac:(lia)) as [_ ->]. simpl. lra.
Defined.

End AllMasked.

(* ================================================================== *)
(** ** Outcomes of the constructor *)
(* ================================================================== *)

Section Constructor.
Local Open Scope Z_scope.

(** C5, refuted as worded: the constructor accepts an embedding width that
    the number of heads does not divide, and a negative number of heads. *)
Lemma init_counterexample :
  8 mod 3 <> 0 /\
  (exists k g', init 8 3 ones_gen = Ok (k, g') /\ head_dim k = 2) /\
  (exists k g', init 8 (-2) ones_gen = Ok (k, g') /\ head_dim k = -4).
Proof.
  split; [discriminate|].
  split; do 2 eexists; (split; [reflexivity|reflexivity]).
Qed.

(** C5, amended.  The constructor validates nothing and knows no
    ConfigurationError.  It raises ZeroDivisionError when [heads] is 0; it
    raises when [embed_size] is negative (the RuntimeError of [nn.Linear],
    for sizes of the range of int64); it raises when [embed_size] is
    non-negative and [embed_size // heads] is 0 (ZeroDivisionError for
    [embed_size = 0]).  A construction that succeeds has [heads] other
    than 0, a positive [embed_size] and [head_dim = embed_size // heads]
    other than 0; and then the construction with the same [embed_size]
    succeeds for every other [heads] with [embed_size // heads] other than
    0, a divisor of [embed_size] or not, positive or not, with the same
    projections: [heads] is used for [head_dim] and nothing else. *)
Theorem init_outcome (e h : Z) (g : generator) :
  (h = 0 -> init e h g = Raise ZeroDivisionError) /\
  (h <> 0 -> e < 0 ->
   raises (init e h g) /\
   (- 2 ^ 63 <= 3 * e -> init e h g = Raise RuntimeError)) /\
  (h <> 0 -> 0 <= e -> e / h = 0 ->
   raises (init e h g) /\
   (e = 0 -> init e h g = Raise ZeroDivisionError)) /\
  (forall k g', init e h g = Ok (k, g') ->
     h <> 0 /\ 0 < e /\ e / h <> 0 /\
     embed_size k = e /\ heads k = h /\ head_dim k = e / h /\
     forall h', h' <> 0 -> e / h' <> 0 ->
       exists k', init e h' g = Ok (k', g') /\
                  heads k' = h' /\ head_dim k' = e / h' /\
                  to_qkv k' = to_qkv k /\ to_out k' = to_out k).
Proof.
  split; [|split; [|split]].
  - intros ->. now rewrite init_cases.
  - intros Hh He. rewrite init_cases.
    destruct (Z.eqb_spec h 0) as [|_]; [contradiction|].
    destruct (Z.ltb_spec e 0) as [_|]; [|lia].
    split; [eexists; reflexivity|reflexivity].
  - intros Hh He Hd. rewrite init_cases.
    destruct (Z.eqb_spec h 0) as [|_]; [contradiction|].
    destruct (Z.ltb_spec e 0) as [|_]; [lia|].
    destruct (Z.eqb_spec (e / h) 0) as [_|]; [|contradiction].
    split; [eexists; reflexivity|reflexivity].
  - intros k g' Hi. rewrite init_cases in Hi.
    destruct (Z.eqb_spec h 0) as [|Hh]; [discriminate|].
    destruct (Z.ltb_spec e 0) as [|He]; [discriminate|].
    destruct (Z.eqb_spec (e / h) 0) as [|Hd]; [discriminate|].
    assert (0 < e) as Hpos.
    { destruct (Z.eq_dec e 0) as [->|]; [|lia].
      now rewrite Z.div_0_l in Hd. }
    pose proof (f_equal (fun r => match r with
                                  | Ok (k0, _) => k0
                                  | Raise _ => k end) Hi) as Hk.
    pose proof (f_equal (fun r => match r with
                                  | Ok (_, g0) => g0
                                  | Raise _ => g' end) Hi) as Hg.
    cbv beta iota zeta in Hk, Hg. clear Hi.
    split; [exact Hh|]. split; [exact Hpos|]. split; [exact Hd|].
    split; [now rewrite <- Hk|]. split; [now rewrite <- Hk|].
    split; [now rewrite <- Hk|].
    intros h' Hh' Hd'. rewrite init_cases.
    destruct (Z.eqb_spec h' 0) as [|_]; [contradiction|].
    destruct (Z.ltb_spec e 0) as [|_]; [lia|].
    destruct (Z.eqb_spec (e / h') 0) as [|_]; [contradiction|].
    cbv zeta. rewrite Hg. eexists. split; [reflexivity|].
    rewrite <- Hk. repeat split.
Qed.

Lemma init_outcome_witness :
  init 8 0 ones_gen = Raise ZeroDivisionError /\
  init (-8) 2 ones_gen = Raise RuntimeError /\
  init 0 2 ones_gen = Raise ZeroDivisionError /\
  exists k g', init 8 3 ones_gen = Ok (k, g') /\ head_dim k = 8 / 3.
Proof.
  split; [exact (proj1 (init_outcome 8 0 ones_gen) eq_refl)|].
  split.
  { apply (proj1 (proj2 (init_outcome (-8) 2 ones_gen))); [discriminate|lia|lia]. }
  split.
  { apply (proj1 (proj2 (proj2 (init_outcome 0 2 ones_gen))));
      [discriminate|lia|reflexivity|reflexivity]. }
  assert (exists k g', init 8 2 ones_gen = Ok (k, g')) as (k & g' & Hk)
    by (do 2 eexists; reflexivity).
  destruct (proj2 (proj2 (proj2 (init_outcome 8 2 ones_gen))) k g' Hk)
    as (_ & _ & _ & _ & _ & _ & Hany).
  destruct (Hany 3 ltac:(discriminate) ltac:(discriminate))
    as (k' & Hk' & _ & Hd & _).
  exists k', g'. split; [exact Hk'|exact Hd].
Defined.

End Constructor.

(** A kernel whose width the heads do not divide is rejected by [view] at
    its first use. *)
Lemma indivisible_kernel_forward_raises (k : SelfAttention) (g' : generator)
  (x : tensor R) (mask : pyvalue) :
  init 8 3 ones_gen = Ok (k, g') -> shape x = [1; 2; 8] ->
  forward k x mask = Raise RuntimeError.
Proof.
  intros Hi Hx.
  rewrite init_cases in Hi.
  apply (f_equal (fun r => match r with Ok (k0, _) => k0 | Raise _ => k end))
    in Hi.
  cbn in Hi. subst k.
  destruct x as [sh f]. cbn [shape] in Hx. subst sh.
  destruct mask; vm_compute; reflexivity.
Qed.

(* ================================================================== *)
(** ** Shape errors of [forward] *)
(* ================================================================== *)

(** An input without tokens, and an input of the wrong width. *)
Definition empty_x : tensor R := mkTensor [1; 0; 2] (fun _ => 1%R).

Definition wide_x : tensor R := mkTensor [1; 3; 5] (fun _ => 1%R).

(** A mask of a shape that does not broadcast with (1, 1, 3, 3). *)
Definition long_mask : tensor R := mkTensor [3; 4] (fun _ => 1%R).

(** C6, refuted as worded: a sequence of length 0 is accepted, and the
    output is the empty batch of shape (1, 0, 2). *)
Lemma zero_length_counterexample :
  shape empty_x = [1; 0; 2] /\
  ~ raises (forward ones_kernel empty_x PyNone) /\
  exists out, forward ones_kernel empty_x PyNone = Ok out /\
              shape out = [1; 0; 2].
Proof.
  destruct (forward_trace_ok ones_kernel empty_x PyNone 1 0 1 2
              ones_kernel_wf eq_refl I) as (tr & Htr & Hts).
  unfold forward. rewrite Htr. cbn [bind].
  split; [reflexivity|]. split.
  - intros [e He]. discriminate.
  - exists (tr_out tr). split; [reflexivity|]. exact (ts_out_shape Hts).
Qed.

(** C6, amended.  On a well-formed kernel, [forward] raises RuntimeError
    when the last dimension of the input differs from [embed_size], and
    when the shape of a supplied mask does not broadcast with the shape
    (B, heads, S, S) of the scores.  A sequence of length 0 is not an
    error: the output is the empty batch of shape (B, 0, embed_size). *)
Theorem forward_shape_errors (k : SelfAttention) (H D : nat) :
  kernel_wf k H D ->
  (forall x mask B S E, shape x = [B; S; E] -> E <> H * D ->
     forward k x mask = Raise RuntimeError) /\
  (forall x m B S, shape x = [B; S; H * D] ->
     broadcast_shapes [B; H; S; S] (shape m) = None ->
     forward k x (PyTensor m) = Raise RuntimeError) /\
  (forall x mask B, shape x = [B; 0; H * D] -> mask_fits mask [B; H; 0; 0] ->
     exists out, forward k x mask = Ok out /\ shape out = [B; 0; H * D]).
Proof.
  intros Hwf. split; [|split].
  - intros x mask B S E Hx HE.
    unfold forward, forward_trace. rewrite Hx.
    now rewrite (linear_mismatch (to_qkv k) x _ _ B S E (wf_qkv Hwf) Hx HE).
  - intros x m B S Hx Hm. unfold forward.
    now rewrite (forward_trace_mask_mismatch k x m B S H D Hwf Hx Hm).
  - intros x mask B Hx Hmask.
    destruct (forward_trace_ok k x mask B 0 H D Hwf Hx Hmask)
      as (tr & Htr & Hts).
    exists (tr_out tr). unfold forward. rewrite Htr.
    split; [reflexivity|exact (ts_out_shape Hts)].
Qed.

Lemma forward_shape_errors_witness :
  forward ones_kernel wide_x PyNone = Raise RuntimeError /\
  forward ones_kernel ones_x (PyTensor long_mask) = Raise RuntimeError.
Proof.
  destruct (forward_shape_errors ones_kernel 1 2 ones_kernel_wf)
    as (Hwide & Hmask & _).
  split.
  - apply (Hwide wide_x PyNone 1 3 5); [reflexivity|discriminate].
  - apply (Hmask ones_x long_mask 1 3); reflexivity.
Defined.

(* ================================================================== *)
(** ** The entry point and what it returns *)
(* ================================================================== *)

(** C7, refuted as worded: [forward] has no parameter [return_weights];
    passing the flag, by keyword or by position, is a TypeError. *)
Lemma return_weights_counterexample :
  call_forward ones_kernel [PyTensor ones_x]
    [("return_weights"%string, PyBool true)] = Raise TypeError /\
  call_forward ones_kernel [PyTensor ones_x; PyNone; PyBool true] []
  = Raise TypeError.
Proof. split; reflexivity. Qed.

(** C7, amended.  The entry point takes the input and an optional mask,
    and nothing else: every keyword of a successful call is [x] or [mask].
    What it returns is the output batch alone, the projected context of the
    call; the attention weights are not returned. *)
Theorem call_returns_output_only (k : SelfAttention) (args : list pyvalue)
  (kwargs : list (string * pyvalue)) (out : tensor R) :
  call_forward k args kwargs = Ok out ->
  forallb kw_known kwargs = true /\
  List.length args <= 2 /\
  exists x mask tr,
    bind_forward args kwargs = Ok (PyTensor x, mask) /\
    forward_trace k x mask = Ok tr /\
    out = tr_out tr.
Proof.
  unfold call_forward. intros Hcall.
  destruct (bind_forward args kwargs) as [[x mask]|e] eqn:Hbind;
    [|discriminate].
  cbn [bind] in Hcall.
  assert (forallb kw_known kwargs = true /\ List.length args <= 2) as [Hkw Hlen].
  { unfold bind_forward in Hbind.
    destruct (forallb kw_known kwargs); [|discriminate].
    split; [reflexivity|].
    destruct args as [|a1 [|a2 [|a3 args]]]; cbn [List.length]; try lia.
    destruct (kw_lookup "x" kwargs), (kw_lookup "mask" kwargs); discriminate. }
  split; [exact Hkw|]. split; [exact Hlen|].
  destruct x as [t| |b]; try discriminate.
  unfold forward in Hcall.
  destruct (forward_trace k t mask) as [tr|e] eqn:Htr; [|discriminate].
  cbn [bind] in Hcall. injection Hcall as <-.
  exists t, mask, tr. repeat split. exact Htr.
Qed.

Lemma call_returns_output_only_witness :
  exists out tr,
    call_forward ones_kernel [PyTensor ones_x] [] = Ok out /\
    forward_trace ones_kernel ones_x PyNone = Ok tr /\
    out = tr_out tr.
Proof.
  destruct (forward_trace_ok ones_kernel ones_x PyNone 1 3 1 2
              ones_kernel_wf eq_refl I) as (tr0 & Htr0 & _).
  assert (call_forward ones_kernel [PyTensor ones_x] [] = Ok (tr_out tr0))
    as Hcall.
  { unfold call_forward. cbn [bind_forward forallb negb kw_lookup find
                               option_map bind].
    unfold forward. now rewrite Htr0. }
  destruct (call_returns_output_only ones_kernel [PyTensor ones_x] []
              (tr_out tr0) Hcall) as (_ & _ & x & mask & tr & Hb & Htr & Hout).
  injection Hb as <- <-.
  exists (tr_out tr0), tr. repeat split; assumption.
Defined.

(* ================================================================== *)
(** ** Two calls on related inputs *)
(* ================================================================== *)

Section Transport.
Local Open Scope R_scope.

Variables (k : SelfAttention) (x x' : tensor R) (mask mask' : pyvalue).
Variables (B S H D : nat) (tr tr' : trace) (p : nat -> nat).

Hypothesis HD : (0 < D)%nat.
Hypothesis Hts : trace_spec k x mask B S H D tr.
Hypothesis Hts' : trace_spec k x' mask' B S H D tr'.
Hypothesis Hp : Permutation (map p (seq 0 S)) (seq 0 S).
Hypothesis Hx : forall b s e, (b < B)%nat -> (s < S)%nat -> (e < H * D)%nat ->
  elem x' [b; s; e] = elem x [b; p s; e].
Hypothesis Hmask : forall b h i j,
  (b < B)%nat -> (h < H)%nat -> (i < S)%nat -> (j < S)%nat ->
  forbidden mask' [b; h; i; j] = forbidden mask [b; h; p i; p j].

Lemma transport_proj (b s o : nat) :
  (b < B)%nat -> (s < S)%nat ->
  qkv_proj k (H * D) x' b s o = qkv_proj k (H * D) x b (p s) o.
Proof.
  intros Hb Hs. unfold qkv_proj. f_equal.
  apply rsum_ext. intros e He. now rewrite Hx.
Qed.

Lemma transport_q (b h s d : nat) :
  (b < B)%nat -> (h < H)%nat -> (s < S)%nat -> (d < D)%nat ->
  elem (tr_q tr') [b; h; s; d] = elem (tr_q tr) [b; h; p s; d].
Proof.
  intros Hb Hh Hs Hd. pose proof (perm_lt S p s Hp Hs).
  rewrite (ts_q Hts'), (ts_q Hts) by assumption. now apply transport_proj.
Qed.

Lemma transport_k (b h s d : nat) :
  (b < B)%nat -> (h < H)%nat -> (s < S)%nat -> (d < D)%nat ->
  elem (tr_k tr') [b; h; s; d] = elem (tr_k tr) [b; h; p s; d].
Proof.
  intros Hb Hh Hs Hd. pose proof (perm_lt S p s Hp Hs).
  rewrite (ts_k Hts'), (ts_k Hts) by assumption. now apply transport_proj.
Qed.

Lemma transport_v (b h s d : nat) :
  (b < B)%nat -> (h < H)%nat -> (s < S)%nat -> (d < D)%nat ->
  elem (tr_v tr') [b; h; s; d] = elem (tr_v tr) [b; h; p s; d].
Proof.
  intros Hb Hh Hs Hd. pose proof (perm_lt S p s Hp Hs).
  rewrite (ts_v Hts'), (ts_v Hts) by assumption. now apply transport_proj.
Qed.

Lemma transport_scores (b h i j : nat) :
  (b < B)%nat -> (h < H)%nat -> (i < S)%nat -> (j < S)%nat ->
  elem (tr_scores tr') [b; h; i; j] = elem (tr_scores tr) [b; h; p i; p j].
Proof.
  intros Hb Hh Hi Hj.
  pose proof (perm_lt S p i Hp Hi). pose proof (perm_lt S p j Hp Hj).
  rewrite (ts_scores Hts'), (ts_scores Hts) by assumption.
  rewrite Hmask by assumption.
  destruct (forbidden mask [b; h; p i; p j]); [reflexivity|].
  f_equal. apply rsum_ext. intros d Hd.
  now rewrite transport_q, transport_k.
Qed.

Lemma transport_attn (b h i j : nat) :
  (b < B)%nat -> (h < H)%nat -> (i < S)%nat -> (j < S)%nat ->
  elem (tr_attn tr') [b; h; i; j] = elem (tr_attn tr) [b; h; p i; p j].
Proof.
  intros Hb Hh Hi Hj.
  rewrite (ts_attn Hts'), (ts_attn Hts).
  rewrite !(softmax_elem4 _ B H S S)
    by (try exact (ts_scores_shape Hts); try exact (ts_scores_shape Hts'); lia).
  rewrite transport_scores by assumption. f_equal.
  rewrite <- (rsum_perm S p
                (fun c => exp (elem (tr_scores tr) [b; h; p i; c])) Hp).
  apply rsum_ext. intros c Hc. now rewrite transport_scores.
Qed.

Lemma transport_context (b h i d : nat) :
  (b < B)%nat -> (h < H)%nat -> (i < S)%nat -> (d < D)%nat ->
  elem (tr_context tr') [b; h; i; d] = elem (tr_context tr) [b; h; p i; d].
Proof.
  intros Hb Hh Hi Hd. pose proof (perm_lt S p i Hp Hi).
  rewrite (ts_context Hts'), (ts_context Hts) by assumption.
  rewrite <- (rsum_perm S p
                (fun j => elem (tr_attn tr) [b; h; p i; j]
                          * elem (tr_v tr) [b; h; j; d]) Hp).
  apply rsum_ext. intros j Hj.
  now rewrite transport_attn, transport_v.
Qed.

Lemma transport_out (b s o : nat) :
  (b < B)%nat -> (s < S)%nat ->
  elem (tr_out tr') [b; s; o] = elem (tr_out tr) [b; p s; o].
Proof.
  intros Hb Hs. pose proof (perm_lt S p s Hp Hs).
  rewrite (ts_out Hts'), (ts_out Hts) by assumption. f_equal.
  apply rsum_ext. intros e He.
  rewrite transport_context; try assumption; [reflexivity| |].
  - apply Nat.Div0.div_lt_upper_bound. lia.
  - apply Nat.mod_upper_bound. lia.
Qed.

End Transport.

Lemma id_permutes (n : nat) : Permutation (map (fun i => i) (seq 0 n)) (seq 0 n).
Proof. now rewrite map_id. Qed.

(* ================================================================== *)
(** ** A mask with a batch axis *)
(* ================================================================== *)

(** A mask of shape (B, S, S) is aligned with the last three axes
    (heads, S, S) of the scores, not with the batch axis: with two batches
    and one head it enlarges the scores to (2, 2, 3, 3), and the final
    [reshape] raises. *)
Lemma batch_mask_rejected (x m : tensor R) :
  shape x = [2; 3; 2] -> shape m = [2; 3; 3] ->
  forward ones_kernel x (PyTensor m) = Raise RuntimeError.
Proof.
  intros Hx Hm.
  destruct x as [shx fx], m as [shm fm]. cbn [shape] in Hx, Hm. subst shx shm.
  vm_compute. reflexivity.
Qed.

(* ================================================================== *)
(** ** Batch elements are processed independently *)
(* ================================================================== *)

Section BatchTransport.
Local Open Scope R_scope.

Variables (k : SelfAttention) (x x' : tensor R) (mask mask' : pyvalue).
Variables (B B' S H D : nat) (tr tr' : trace) (b b' : nat).

Hypothesis HD : (0 < D)%nat.
Hypothesis Hts : trace_spec k x mask B S H D tr.
Hypothesis Hts' : trace_spec k x' mask' B' S H D tr'.
Hypothesis Hb : (b < B)%nat.
Hypothesis Hb' : (b' < B')%nat.
Hypothesis Hx : forall s e, (s < S)%nat -> (e < H * D)%nat ->
  elem x' [b'; s; e] = elem x [b; s; e].
Hypothesis Hmask : forall h i j, (h < H)%nat -> (i < S)%nat -> (j < S)%nat ->
  forbidden mask' [b'; h; i; j] = forbidden mask [b; h; i; j].

Lemma batch_proj (s o : nat) :
  (s < S)%nat ->
  qkv_proj k (H * D) x' b' s o = qkv_proj k (H * D) x b s o.
Proof.
  intros Hs. unfold qkv_proj. f_equal.
  apply rsum_ext. intros e He. now rewrite Hx.
Qed.

Lemma batch_scores (h i j : nat) :
  (h < H)%nat -> (i < S)%nat -> (j < S)%nat ->
  elem (tr_scores tr') [b'; h; i; j] = elem (tr_scores tr) [b; h; i; j].
Proof.
  intros Hh Hi Hj.
  rewrite (ts_scores Hts'), (ts_scores Hts) by assumption.
  rewrite Hmask by assumption.
  destruct (forbidden mask [b; h; i; j]); [reflexivity|].
  f_equal. apply rsum_ext. intros d Hd.
  rewrite (ts_q Hts'), (ts_q Hts), (ts_k Hts'), (ts_k Hts) by assumption.
  now rewrite !batch_proj.
Qed.

Lemma batch_attn (h i j : nat) :
  (h < H)%nat -> (i < S)%nat -> (j < S)%nat ->
  elem (tr_attn tr') [b'; h; i; j] = elem (tr_attn tr) [b; h; i; j].
Proof.
  intros Hh Hi Hj.
  rewrite (ts_attn Hts'), (ts_attn Hts).
  rewrite (softmax_elem4 _ B' H S S), (softmax_elem4 _ B H S S)
    by (try exact (ts_scores_shape Hts); try exact (ts_scores_shape Hts'); lia).
  rewrite batch_scores by assumption. f_equal.
  apply rsum_ext. intros c Hc. now rewrite batch_scores.
Qed.

Lemma batch_context (h i d : nat) :
  (h < H)%nat -> (i < S)%nat -> (d < D)%nat ->
  elem (tr_context tr') [b'; h; i; d] = elem (tr_context tr) [b; h; i; d].
Proof.
  intros Hh Hi Hd.
  rewrite (ts_context Hts'), (ts_context Hts) by assumption.
  apply rsum_ext. intros j Hj.
  rewrite batch_attn by assumption.
  rewrite (ts_v Hts'), (ts_v Hts) by assumption.
  now rewrite batch_proj.
Qed.

Lemma batch_out (s o : nat) :
  (s < S)%nat ->
  elem (tr_out tr') [b'; s; o] = elem (tr_out tr) [b; s; o].
Proof.
  intros Hs.
  rewrite (ts_out Hts'), (ts_out Hts) by assumption. f_equal.
  apply rsum_ext. intros e He.
  rewrite batch_context; try assumption; [reflexivity| |].
  - apply Nat.Div0.div_lt_upper_bound. lia.
  - apply Nat.mod_upper_bound. lia.
Qed.

End BatchTransport.

(** Two batches, the second holding the two elements of the first in the
    other order. *)
Definition pair_x : tensor R :=
  mkTensor [2; 3; 2]
    (fun idx => match idx with
                | 0 :: _ => 1%R
                | _ => 5%R
                end).

Definition pair_x_swapped : tensor R :=
  mkTensor [2; 3; 2]
    (fun idx => match idx with
                | 0 :: _ => 5%R
                | _ => 1%R
                end).

(** X1.  The output and the attention weights of one element of a batch
    depend on that element alone: if element [b'] of a second batch has the
    contents of element [b] of the first, and the masks treat the two
    alike, then the two calls give the same output rows and the same
    attention weights for them, whatever the other elements of the batches
    and whatever the batch sizes. *)
Theorem forward_batch_independent (k : SelfAttention) (x x' : tensor R)
  (mask mask' : pyvalue) (B B' S H D b b' : nat) :
  kernel_wf k H D ->
  shape x = [B; S; H * D] -> shape x' = [B'; S; H * D] ->
  mask_fits mask [B; H; S; S] -> mask_fits mask' [B'; H; S; S] ->
  b < B -> b' < B' ->
  (forall s e, s < S -> e < H * D -> elem x' [b'; s; e] = elem x [b; s; e]) ->
  (forall h i j, h < H -> i < S -> j < S ->
     forbidden mask' [b'; h; i; j] = forbidden mask [b; h; i; j]) ->
  exists tr tr',
    forward_trace k x mask = Ok tr /\
    forward_trace k x' mask' = Ok tr' /\
    forward k x mask = Ok (tr_out tr) /\
    forward k x' mask' = Ok (tr_out tr') /\
    (forall s o, s < S ->
       elem (tr_out tr') [b'; s; o] = elem (tr_out tr) [b; s; o]) /\
    (forall h i j, h < H -> i < S -> j < S ->
       elem (tr_attn tr') [b'; h; i; j] = elem (tr_attn tr) [b; h; i; j]).
Proof.
  intros Hwf Hx Hx' Hfit Hfit' Hb Hb' Hxe Hme.
  destruct (forward_trace_ok k x mask B S H D Hwf Hx Hfit) as (tr & Htr & Hts).
  destruct (forward_trace_ok k x' mask' B' S H D Hwf Hx' Hfit')
    as (tr' & Htr' & Hts').
  exists tr, tr'. split; [exact Htr|]. split; [exact Htr'|].
  split; [unfold forward; now rewrite Htr|].
  split; [unfold forward; now rewrite Htr'|].
  split.
  - intros s o Hs.
    now apply (batch_out k x x' mask mask' B B' S H D tr tr' b b'
                 (wf_D Hwf) Hts Hts' Hb Hb' Hxe Hme).
  - intros h i j Hh Hi Hj.
    now apply (batch_attn k x x' mask mask' B B' S H D tr tr' b b'
                 (wf_D Hwf) Hts Hts' Hb Hb' Hxe Hme).
Qed.

Lemma forward_batch_independent_witness :
  exists tr tr',
    forward_trace ones_kernel pair_x PyNone = Ok tr /\
    forward_trace ones_kernel pair_x_swapped PyNone = Ok tr' /\
    elem (tr_out tr') [1; 2; 0] = elem (tr_out tr) [0; 2; 0].
Proof.
  destruct (forward_batch_independent ones_kernel pair_x pair_x_swapped
              PyNone PyNone 2 2 3 1 2 0 1 ones_kernel_wf eq_refl eq_refl I I
              ltac:(lia) ltac:(lia)
              (fun s e _ _ => eq_refl) (fun h i j _ _ _ => eq_refl))
    as (tr & tr' & H1 & H2 & _ & _ & Hout & _).
  exists tr, tr'. repeat split; try assumption.
  apply Hout. lia.
Defined.

(* ================================================================== *)
(** ** Tokens with the same contents *)
(* ================================================================== *)

Section EqualTokens.
Local Open Scope R_scope.

(** X2.  Without a mask the kernel cannot tell two positions of a sequence
    apart: when tokens [i] and [i'] of a batch element have the same
    contents, they receive the same output, they attend alike to every
    key, and every query attends alike to both of them. *)
Theorem forward_identical_tokens (k : SelfAttention) (x : tensor R)
  (B S H D b i i' : nat) :
  kernel_wf k H D -> shape x = [B; S; (H * D)%nat] ->
  (b < B)%nat -> (i < S)%nat -> (i' < S)%nat ->
  (forall e, (e < H * D)%nat -> elem x [b; i; e] = elem x [b; i'; e]) ->
  exists tr,
    forward_trace k x PyNone = Ok tr /\
    (forall o, elem (tr_out tr) [b; i; o] = elem (tr_out tr) [b; i'; o]) /\
    (forall h j, (h < H)%nat -> (j < S)%nat ->
       elem (tr_attn tr) [b; h; i; j] = elem (tr_attn tr) [b; h; i'; j] /\
       elem (tr_attn tr) [b; h; j; i] = elem (tr_attn tr) [b; h; j; i']).
Proof.
  intros Hwf Hx Hb Hi Hi' Heq.
  destruct (forward_trace_ok k x PyNone B S H D Hwf Hx I) as (tr & Htr & Hts).
  exists tr. split; [exact Htr|].
  assert (forall o, qkv_proj k (H * D) x b i o = qkv_proj k (H * D) x b i' o)
    as Hproj.
  { intros o. unfold qkv_proj. f_equal.
    apply rsum_ext. intros e He. now rewrite Heq. }
  assert (forall h d, (h < H)%nat -> (d < D)%nat ->
            elem (tr_q tr) [b; h; i; d] = elem (tr_q tr) [b; h; i'; d]) as Hq.
  { intros h d Hh Hd. rewrite !(ts_q Hts) by assumption. apply Hproj. }
  assert (forall h d, (h < H)%nat -> (d < D)%nat ->
            elem (tr_k tr) [b; h; i; d] = elem (tr_k tr) [b; h; i'; d]) as Hk.
  { intros h d Hh Hd. rewrite !(ts_k Hts) by assumption. apply Hproj. }
  assert (forall h d, (h < H)%nat -> (d < D)%nat ->
            elem (tr_v tr) [b; h; i; d] = elem (tr_v tr) [b; h; i'; d]) as Hv.
  { intros h d Hh Hd. rewrite !(ts_v Hts) by assumption. apply Hproj. }
  assert (forall h j, (h < H)%nat -> (j < S)%nat ->
            elem (tr_scores tr) [b; h; i; j] = elem (tr_scores tr) [b; h; i'; j])
    as Hrow.
  { intros h j Hh Hj. rewrite !(ts_scores Hts) by assumption.
    cbn [forbidden]. f_equal. apply rsum_ext. intros d Hd. now rewrite Hq. }
  assert (forall h j, (h < H)%nat -> (j < S)%nat ->
            elem (tr_scores tr) [b; h; j; i] = elem (tr_scores tr) [b; h; j; i'])
    as Hcol.
  { intros h j Hh Hj. rewrite !(ts_scores Hts) by assumption.
    cbn [forbidden]. f_equal. apply rsum_ext. intros d Hd. now rewrite Hk. }
  assert (forall h j, (h < H)%nat -> (j < S)%nat ->
            elem (tr_attn tr) [b; h; i; j] = elem (tr_attn tr) [b; h; i'; j])
    as Harow.
  { intros h j Hh Hj. rewrite (ts_attn Hts).
    rewrite !(softmax_elem4 _ B H S S)
      by (try exact (ts_scores_shape Hts); lia).
    rewrite Hrow by assumption. f_equal.
    apply rsum_ext. intros c Hc. now rewrite Hrow. }
  split.
  - intros o. rewrite !(ts_out Hts) by assumption. f_equal.
    apply rsum_ext. intros e He.
    assert (e / D < H)%nat
      by (apply Nat.Div0.div_lt_upper_bound; lia).
    assert (e mod D < D)%nat
      by (apply Nat.mod_upper_bound; pose proof (wf_D Hwf); lia).
    f_equal. rewrite !(ts_context Hts) by assumption.
    apply rsum_ext. intros j Hj. now rewrite Harow.
  - intros h j Hh Hj. split; [now apply Harow|].
    rewrite (ts_attn Hts).
    rewrite !(softmax_elem4 _ B H S S)
      by (try exact (ts_scores_shape Hts); lia).
    now rewrite Hcol.
Qed.

Lemma forward_identical_tokens_witness :
  exists tr,
    forward_trace ones_kernel ones_x PyNone = Ok tr /\
    elem (tr_out tr) [0; 0; 1]%nat = elem (tr_out tr) [0; 2; 1]%nat.
Proof.
  destruct (forward_identical_tokens ones_kernel ones_x 1 3 1 2 0 0 2
              ones_kernel_wf eq_refl ltac:(lia) ltac:(lia) ltac:(lia)
              (fun e _ => eq_refl)) as (tr & Htr & Hout & _).
  exists tr. split; [exact Htr|apply Hout].
Defined.

(** X3.  A call on sequences of a single token is the tail of [forward]
    applied to the value projection of the token and to the product of its
    query and its key.  Whatever that product holds, wherever the score of
    the token is a finite number of the tensor format (it always is under
    a mask that forbids the only key, the score being the fill value), the
    token attends to itself with weight 1, and where this is so for every
    head the output is the output projection of the value vectors:
    queries and keys play no part. *)
Theorem forward_single_token (k : SelfAttention) (x : tensor R)
  (mask : pyvalue) (B H D : nat) :
  kernel_wf k H D -> shape x = [B; 1%nat; (H * D)%nat] ->
  mask_fits mask [B; H; 1%nat; 1%nat] ->
  exists q kk v qk,
    forward_trace k x mask = forward_tail k B 1 q kk v qk mask /\
    shape qk = [B; H; 1%nat; 1%nat] /\
    (forall b h d, (b < B)%nat -> (h < H)%nat -> (d < D)%nat ->
       elem v [b; h; 0%nat; d]
       = qkv_proj k (H * D) x b 0 (2 * (H * D) + (h * D + d))) /\
    forall qk', shape qk' = [B; H; 1%nat; 1%nat] ->
    exists tr,
      forward_tail k B 1 q kk v qk' mask = Ok tr /\
      forall b, (b < B)%nat ->
        (forall h, (h < H)%nat ->
           elem (tr_scores tr) [b; h; 0; 0]%nat
           = (if forbidden mask [b; h; 0; 0]%nat then sentinel
              else elem qk' [b; h; 0; 0]%nat * / sqrt (INR D)) /\
           (row_in_float_range (tr_scores tr) 1 b h 0 ->
            elem (tr_attn tr) [b; h; 0; 0]%nat = 1)) /\
        ((forall h, (h < H)%nat -> row_in_float_range (tr_scores tr) 1 b h 0) ->
         forall o,
           elem (tr_out tr) [b; 0%nat; o]
           = rsum (H * D)%nat
               (fun e => elem v [b; (e / D)%nat; 0%nat; (e mod D)%nat]
                         * elem (weight (to_out k)) [o; e])
             + elem (bias (to_out k)) [o]).
Proof.
  intros Hwf Hx Hfit.
  destruct (forward_trace_prefix k x mask B 1 H D Hwf Hx)
    as (q & kk & v & qk & Htail & Hvs & Hqks & _ & _ & Hve & _).
  exists q, kk, v, qk. split; [exact Htail|]. split; [exact Hqks|].
  split; [intros b h d Hb Hh Hd; apply Hve; (assumption || lia)|].
  intros qk' Hqks'.
  destruct (forward_tail_ok k q kk v qk' mask B 1 H D Hwf Hvs Hqks' Hfit)
    as (tr & Htr & _ & Hsh & Hsc & Hattn & Hctx & _ & Hout).
  exists tr. split; [exact Htr|].
  intros b Hb.
  assert (forall h, (h < H)%nat -> elem (tr_attn tr) [b; h; 0; 0]%nat = 1)
    as Hone.
  { intros h Hh. rewrite Hattn.
    rewrite (softmax_elem4 _ B H 1 1) by (try exact Hsh; lia).
    rewrite rsum_1.
    pose proof (exp_pos (elem (tr_scores tr) [b; h; 0; 0]%nat)).
    field. lra. }
  split.
  - intros h Hh. split; [apply Hsc; (assumption || lia)|].
    intros _. now apply Hone.
  - intros _ o. rewrite Hout by (try assumption; lia). f_equal.
    apply rsum_ext. intros e He.
    pose proof (wf_D Hwf) as HD.
    assert (e / D < H)%nat by (apply Nat.Div0.div_lt_upper_bound; lia).
    assert (e mod D < D)%nat by (apply Nat.mod_upper_bound; lia).
    f_equal.
    rewrite Hctx by (try assumption; lia).
    rewrite rsum_1, Hone by assumption. lra.
Qed.

Definition single_x : tensor R := mkTensor [1; 1; 2]%nat (fun _ => 3).

Definition forbid_mask : tensor R := mkTensor [1; 1]%nat (fun _ => 0).

Lemma forward_single_token_witness :
  exists tr,
    forward_trace ones_kernel single_x (PyTensor forbid_mask) = Ok tr /\
    elem (tr_attn tr) [0; 0; 0; 0]%nat = 1.
Proof.
  destruct (forward_single_token ones_kernel single_x (PyTensor forbid_mask)
              1 1 2 ones_kernel_wf eq_refl eq_refl)
    as (q & kk & v & qk & Htail & Hqks & _ & Hany).
  destruct (Hany qk Hqks) as (tr & Htr & Hrow).
  exists tr. split; [now rewrite Htail|].
  destruct (Hrow 0%nat ltac:(lia)) as [Hhead _].
  destruct (Hhead 0%nat ltac:(lia)) as [Hsc Hone].
  apply Hone. intros j Hj. assert (j = 0)%nat as -> by lia.
  rewrite Hsc.
  replace (forbidden (PyTensor forbid_mask) [0; 0; 0; 0]%nat) with true
    by (symmetry; exact is_zero_0).
  unfold sentinel, float32_max, Rabs.
  destruct (Rcase_abs (-1e9)); lra.
Defined.

End EqualTokens.

(* ================================================================== *)
(** ** How a mask is applied *)
(* ================================================================== *)

(** The kernel of width 2 with two heads built from the constant
    generator. *)
Definition two_head_kernel : SelfAttention :=
  mkSelfAttention 2 2 1
    (mkLinear (mkTensor [6; 2] (fun _ => 1%R)) (mkTensor [6] (fun _ => 1%R)))
    (PyFloat (/ sqrt 1)%R)
    (mkLinear (mkTensor [2; 2] (fun _ => 1%R)) (mkTensor [2] (fun _ => 1%R))).

Lemma two_head_kernel_built :
  init 2 2 ones_gen = Ok (two_head_kernel, mkGen (fun _ => 1%R) 24).
Proof. reflexivity. Qed.

Lemma two_head_kernel_wf : kernel_wf two_head_kernel 2 1.
Proof.
  exact (init_wf 2 2 _ _ _ two_head_kernel_built ltac:(lia) ltac:(lia) eq_refl).
Qed.

(** A mask without zeros. *)
Definition allow_mask : tensor R := mkTensor [3; 3] (fun _ => 1%R).

(** A mask with one matrix per head: head 0 is causal, head 1 sees all. *)
Definition head_mask : tensor R :=
  mkTensor [2; 3; 3]
    (fun idx => match idx with
                | [0; i; j] => if j <=? i then 1%R else 0%R
                | _ => 1%R
                end).

Definition five_mask : tensor R := mkTensor [5; 3; 3] (fun _ => 1%R).

Section MaskAxes.
Local Open Scope R_scope.

(** X4.  A mask without a forbidden position changes nothing: the call
    gives the output and the attention weights of the call without mask. *)
Theorem forward_mask_without_zeros (k : SelfAttention) (x m : tensor R)
  (B S H D : nat) :
  kernel_wf k H D -> shape x = [B; S; (H * D)%nat] ->
  broadcast_shapes [B; H; S; S] (shape m) = Some [B; H; S; S] ->
  (forall b h i j, (b < B)%nat -> (h < H)%nat -> (i < S)%nat -> (j < S)%nat ->
     forbidden (PyTensor m) [b; h; i; j] = false) ->
  exists tr tr',
    forward_trace k x PyNone = Ok tr /\
    forward_trace k x (PyTensor m) = Ok tr' /\
    (forall b s o, (b < B)%nat -> (s < S)%nat ->
       elem (tr_out tr') [b; s; o] = elem (tr_out tr) [b; s; o]) /\
    (forall b h i j, (b < B)%nat -> (h < H)%nat -> (i < S)%nat -> (j < S)%nat ->
       elem (tr_attn tr') [b; h; i; j] = elem (tr_attn tr) [b; h; i; j]).
Proof.
  intros Hwf Hx Hfit Hallow.
  destruct (forward_trace_ok k x PyNone B S H D Hwf Hx I) as (tr & Htr & Hts).
  destruct (forward_trace_ok k x (PyTensor m) B S H D Hwf Hx Hfit)
    as (tr' & Htr' & Hts').
  exists tr, tr'. split; [exact Htr|]. split; [exact Htr'|].
  assert (forall b s e, (b < B)%nat -> (s < S)%nat -> (e < H * D)%nat ->
            elem x [b; s; e] = elem x [b; s; e]) as Hxe by reflexivity.
  split.
  - intros b s o Hb Hs.
    now apply (transport_out k x x PyNone (PyTensor m) B S H D tr tr'
                 (fun i => i) (wf_D Hwf) Hts Hts' (id_permutes S) Hxe Hallow).
  - intros b h i j Hb Hh Hi Hj.
    now apply (transport_attn k x x PyNone (PyTensor m) B S H D tr tr'
                 (fun i => i) (wf_D Hwf) Hts Hts' (id_permutes S) Hxe Hallow).
Qed.

Lemma forward_mask_without_zeros_witness :
  exists tr tr',
    forward_trace ones_kernel ones_x PyNone = Ok tr /\
    forward_trace ones_kernel ones_x (PyTensor allow_mask) = Ok tr' /\
    elem (tr_out tr') [0; 1; 0]%nat = elem (tr_out tr) [0; 1; 0]%nat.
Proof.
  destruct (forward_mask_without_zeros ones_kernel ones_x allow_mask 1 3 1 2
              ones_kernel_wf eq_refl eq_refl
              (fun b h i j _ _ _ _ => is_zero_1))
    as (tr & tr' & H1 & H2 & Hout & _).
  exists tr, tr'. repeat split; try assumption.
  apply Hout; lia.
Defined.

Lemma broadcast_2d (B H S : nat) :
  broadcast_shapes [B; H; S; S] [S; S] = Some [B; H; S; S].
Proof.
  unfold broadcast_shapes. cbn [rev app broadcast_rev].
  now rewrite !Nat.eqb_refl.
Qed.

Lemma broadcast_3d_heads (B H S : nat) :
  broadcast_shapes [B; H; S; S] [H; S; S] = Some [B; H; S; S].
Proof.
  unfold broadcast_shapes. cbn [rev app broadcast_rev].
  now rewrite !Nat.eqb_refl.
Qed.

Lemma broadcast_3d_other (B H M S : nat) :
  H <> 1%nat -> M <> 1%nat -> M <> H ->
  broadcast_shapes [B; H; S; S] [M; S; S] = None.
Proof.
  intros HH HM HMH. unfold broadcast_shapes. cbn [rev app broadcast_rev].
  rewrite !Nat.eqb_refl.
  destruct (Nat.eqb_spec H M); [congruence|].
  destruct (Nat.eqb_spec H 1); [congruence|].
  destruct (Nat.eqb_spec M 1); [congruence|reflexivity].
Qed.

(** X5.  A mask of shape (S, S) is shared by all batch elements and all
    heads: the score of query [i] and key [j] is replaced by the fill
    value exactly when entry (i, j) of the mask is 0, and is otherwise the
    scaled product of query and key. *)
Theorem forward_mask_2d (k : SelfAttention) (x m : tensor R) (B S H D : nat) :
  kernel_wf k H D -> shape x = [B; S; (H * D)%nat] -> shape m = [S; S] ->
  exists tr,
    forward_trace k x (PyTensor m) = Ok tr /\
    forall b h i j, (b < B)%nat -> (h < H)%nat -> (i < S)%nat -> (j < S)%nat ->
      elem (tr_scores tr) [b; h; i; j]
      = if is_zero (elem m [i; j]) then sentinel
        else rsum D (fun d => elem (tr_q tr) [b; h; i; d]
                              * elem (tr_k tr) [b; h; j; d])
             * / sqrt (INR D).
Proof.
  intros Hwf Hx Hm.
  assert (broadcast_shapes [B; H; S; S] (shape m) = Some [B; H; S; S]) as Hfit
    by (rewrite Hm; apply broadcast_2d).
  destruct (forward_trace_ok k x (PyTensor m) B S H D Hwf Hx Hfit)
    as (tr & Htr & Hts).
  exists tr. split; [exact Htr|].
  intros b h i j Hb Hh Hi Hj.
  rewrite (ts_scores Hts) by assumption.
  cbn [forbidden]. rewrite Hm. unfold bindex. cbn [List.length Nat.sub skipn].
  rewrite (zip_bindex_in_range [S; S] [i; j])
    by (repeat constructor; assumption).
  now rewrite (wf_scale Hwf).
Qed.

Lemma forward_mask_2d_witness :
  exists tr,
    forward_trace ones_kernel ones_x (PyTensor causal_mask) = Ok tr /\
    elem (tr_scores tr) [0; 0; 1; 2]%nat = sentinel.
Proof.
  destruct (forward_mask_2d ones_kernel ones_x causal_mask 1 3 1 2
              ones_kernel_wf eq_refl eq_refl) as (tr & Htr & Hsc).
  exists tr. split; [exact Htr|].
  rewrite Hsc by lia. cbn [causal_mask elem Nat.leb]. now rewrite is_zero_0.
Defined.

(** X6.  The leading axis of a mask of rank 3 is the axis of the heads,
    not of the batch.  A mask of shape (heads, S, S) is accepted, and for
    every batch element the scores of head [h] are masked by matrix [h] of
    the mask.  With more than one head, a mask of shape (M, S, S) with M
    neither 1 nor the number of heads, such as one matrix per batch
    element, makes the call raise RuntimeError. *)
Theorem forward_mask_3d (k : SelfAttention) (x : tensor R) (B S H D : nat) :
  kernel_wf k H D -> shape x = [B; S; (H * D)%nat] ->
  (forall m, shape m = [H; S; S] ->
     exists tr,
       forward_trace k x (PyTensor m) = Ok tr /\
       forall b h i j,
         (b < B)%nat -> (h < H)%nat -> (i < S)%nat -> (j < S)%nat ->
         elem (tr_scores tr) [b; h; i; j]
         = if is_zero (elem m [h; i; j]) then sentinel
           else rsum D (fun d => elem (tr_q tr) [b; h; i; d]
                                 * elem (tr_k tr) [b; h; j; d])
                * / sqrt (INR D)) /\
  (forall m M, shape m = [M; S; S] ->
     H <> 1%nat -> M <> 1%nat -> M <> H ->
     forward k x (PyTensor m) = Raise RuntimeError).
Proof.
  intros Hwf Hx. split.
  - intros m Hm.
    assert (broadcast_shapes [B; H; S; S] (shape m) = Some [B; H; S; S])
      as Hfit by (rewrite Hm; apply broadcast_3d_heads).
    destruct (forward_trace_ok k x (PyTensor m) B S H D Hwf Hx Hfit)
      as (tr & Htr & Hts).
    exists tr. split; [exact Htr|].
    intros b h i j Hb Hh Hi Hj.
    rewrite (ts_scores Hts) by assumption.
    cbn [forbidden]. rewrite Hm. unfold bindex.
    cbn [List.length Nat.sub skipn].
    rewrite (zip_bindex_in_range [H; S; S] [h; i; j])
      by (repeat constructor; assumption).
    now rewrite (wf_scale Hwf).
  - intros m M Hm HH HM HMH. unfold forward.
    rewrite (forward_trace_mask_mismatch k x m B S H D Hwf Hx); [reflexivity|].
    rewrite Hm. now apply broadcast_3d_other.
Qed.

Lemma forward_mask_3d_witness :
  (exists tr,
     forward_trace two_head_kernel ones_x (PyTensor head_mask) = Ok tr /\
     elem (tr_scores tr) [0; 0; 0; 1]%nat = sentinel) /\
  forward two_head_kernel ones_x (PyTensor five_mask) = Raise RuntimeError.
Proof.
  destruct (forward_mask_3d two_head_kernel ones_x 1 3 2 1
              two_head_kernel_wf eq_refl) as [Hhead Hother].
  split.
  - destruct (Hhead head_mask eq_refl) as (tr & Htr & Hsc).
    exists tr. split; [exact Htr|].
    rewrite Hsc by lia. cbn [head_mask elem Nat.leb]. now rewrite is_zero_0.
  - apply (Hother five_mask 5%nat eq_refl); lia.
Defined.

End MaskAxes.

(* ================================================================== *)
(** ** Kernels the constructor should not have built *)
(* ================================================================== *)

(** The fields of a kernel returned by the constructor. *)
Lemma init_fields (e h : Z) (g g' : generator) (k : SelfAttention) :
  init e h g = Ok (k, g') ->
  (h <> 0 /\ 0 <= e /\ e / h <> 0)%Z /\
  embed_size k = e /\ heads k = h /\ head_dim k = (e / h)%Z /\
  shape (weight (to_qkv k)) = [3 * Z.to_nat e; Z.to_nat e] /\
  shape (weight (to_out k)) = [Z.to_nat e; Z.to_nat e].
Proof.
  intros Hi. rewrite init_cases in Hi.
  destruct (Z.eqb_spec h 0); [discriminate|].
  destruct (Z.ltb_spec e 0); [discriminate|].
  destruct (Z.eqb_spec (e / h) 0); [discriminate|].
  apply (f_equal (fun r => match r with Ok (k0, _) => k0 | Raise _ => k end))
    in Hi.
  cbv beta iota zeta in Hi. subst k.
  cbn [embed_size heads head_dim to_qkv to_out weight shape].
  repeat split; try assumption.
  f_equal. lia.
Qed.

(** The three chunks of the projection of an input of the width of the
    kernel, for any kernel returned by the constructor. *)
Lemma init_chunks (e h : Z) (g g' : generator) (k : SelfAttention)
  (x : tensor R) (B S : nat) :
  init e h g = Ok (k, g') -> shape x = [B; S; Z.to_nat e] ->
  exists y c0 c1 c2,
    linear (to_qkv k) x = Ok y /\ chunk 3 y = [c0; c1; c2] /\
    shape c0 = [B; S; Z.to_nat e].
Proof.
  intros Hi Hx.
  destruct (init_fields e h g g' k Hi) as ((Hh & He & Hd) & _ & _ & _ & Hq & _).
  assert (0 < Z.to_nat e) as HE.
  { destruct (Z.eq_dec e 0) as [->|]; [|lia]. now rewrite Z.div_0_l in Hd. }
  destruct (linear_spec3 (to_qkv k) x _ _ B S Hq Hx) as (y & Hy & Hys & _).
  destruct (chunk3_spec R y B S (Z.to_nat e) _ HE eq_refl Hys)
    as (c0 & c1 & c2 & Hch & Hs0 & _).
  now exists y, c0, c1, c2.
Qed.

(** X7.  A kernel built with a number of heads that does not divide the
    embedding width cannot process any token: every call on a non-empty
    input of that width raises RuntimeError, the split into heads being
    impossible. *)
Theorem indivisible_kernel_raises (e h : Z) (g g' : generator)
  (k : SelfAttention) (x : tensor R) (mask : pyvalue) (B S : nat) :
  init e h g = Ok (k, g') ->
  (0 < e)%Z -> (0 < h)%Z -> (e mod h <> 0)%Z ->
  shape x = [B; S; Z.to_nat e] -> 0 < B -> 0 < S ->
  forward k x mask = Raise RuntimeError.
Proof.
  intros Hi He Hh Hm Hx HB HS.
  destruct (init_fields e h g g' k Hi) as ((_ & _ & Hd) & _ & Hheads & Hhd & _).
  destruct (init_chunks e h g g' k x B S Hi Hx)
    as (y & c0 & c1 & c2 & Hy & Hch & Hs0).
  unfold forward, forward_trace. rewrite Hx, Hy. cbn [bind].
  rewrite Hch. cbn [mapM]. rewrite Hheads, Hhd.
  assert (0 <= e / h)%Z as Hq by (apply Z.div_pos; lia).
  unfold view.
  replace [Z.of_nat B; Z.of_nat S; h; (e / h)%Z]
    with (map Z.of_nat [B; S; Z.to_nat h; Z.to_nat (e / h)])
    by (cbn [map]; now rewrite !Z2Nat.id by lia).
  rewrite infer_size_of_nat, Hs0.
  assert (Z.to_nat h * Z.to_nat (e / h) <> Z.to_nat e) as Hne.
  { rewrite <- Z2Nat.inj_mul by lia.
    pose proof (Z.div_mod e h ltac:(lia)) as Hdm.
    intros Heq. apply Z2Nat.inj in Heq; lia. }
  destruct (Nat.eqb_spec (numel [B; S; Z.to_nat e])
              (numel [B; S; Z.to_nat h; Z.to_nat (e / h)])) as [Heq|_];
    [|reflexivity].
  exfalso. cbn [numel fold_right] in Heq.
  rewrite !Nat.mul_1_r in Heq.
  apply Nat.mul_cancel_l in Heq; [|lia].
  apply Nat.mul_cancel_l in Heq; [|lia]. lia.
Qed.

Definition wide8_x : tensor R := mkTensor [1; 2; 8] (fun _ => 1%R).

Lemma indivisible_kernel_raises_witness :
  exists k g', init 8 3 ones_gen = Ok (k, g') /\
               forward k wide8_x PyNone = Raise RuntimeError.
Proof.
  destruct (init 8 3 ones_gen) as [[k g']|err] eqn:Hi; [|discriminate].
  exists k, g'. split; [reflexivity|].
  apply (indivisible_kernel_raises 8 3 ones_gen g' k wide8_x PyNone 1 2 Hi);
    try lia; try reflexivity. discriminate.
Defined.

Lemma infer_size_two_negative (B S : nat) (h d : Z) (n : nat) :
  (h < 0)%Z -> (d < 0)%Z ->
  infer_size [Z.of_nat B; Z.of_nat S; h; d] n = Raise RuntimeError.
Proof.
  intros Hh Hd. unfold infer_size. cbn [existsb].
  replace (Z.of_nat B <? -1)%Z with false by (symmetry; apply Z.ltb_ge; lia).
  replace (Z.of_nat S <? -1)%Z with false by (symmetry; apply Z.ltb_ge; lia).
  cbn [orb].
  destruct (Z.ltb_spec h (-1)); [reflexivity|].
  destruct (Z.ltb_spec d (-1)); [reflexivity|].
  assert (h = -1)%Z as -> by lia. assert (d = -1)%Z as -> by lia.
  cbn [orb count_occ].
  destruct (Z.eq_dec (Z.of_nat B) (-1)); [lia|].
  destruct (Z.eq_dec (Z.of_nat S) (-1)); [lia|].
  destruct (Z.eq_dec (-1) (-1)); [|congruence].
  reflexivity.
Qed.

(** X8.  A kernel built with a negative number of heads, which the
    constructor accepts when the width is positive, is unusable: every
    call on an input of rank 3 raises RuntimeError. *)
Theorem negative_heads_kernel_raises (e h : Z) (g g' : generator)
  (k : SelfAttention) (x : tensor R) (mask : pyvalue) (B S W : nat) :
  init e h g = Ok (k, g') -> (h < 0)%Z ->
  shape x = [B; S; W] ->
  forward k x mask = Raise RuntimeError.
Proof.
  intros Hi Hh Hx.
  destruct (init_fields e h g g' k Hi)
    as ((_ & He & Hd) & _ & Hheads & Hhd & Hq & _).
  destruct (Nat.eq_dec W (Z.to_nat e)) as [->|HW].
  - destruct (init_chunks e h g g' k x B S Hi Hx)
      as (y & c0 & c1 & c2 & Hy & Hch & Hs0).
    unfold forward, forward_trace. rewrite Hx, Hy. cbn [bind].
    rewrite Hch. cbn [mapM]. rewrite Hheads, Hhd.
    unfold view. rewrite infer_size_two_negative; [reflexivity|exact Hh|].
    assert (e <> 0)%Z as He0 by (intros ->; now rewrite Z.div_0_l in Hd).
    pose proof (Z_mult_div_ge_neg e h Hh) as Hge.
    destruct (Z_lt_le_dec (e / h) 0) as [Hlt|Hle]; [exact Hlt|].
    pose proof (Z.mul_nonpos_nonneg h (e / h)). lia.
  - unfold forward, forward_trace. rewrite Hx.
    now rewrite (linear_mismatch (to_qkv k) x _ _ B S W Hq Hx HW).
Qed.

Lemma negative_heads_kernel_raises_witness :
  exists k g', init 8 (-2) ones_gen = Ok (k, g') /\
               forward k wide8_x PyNone = Raise RuntimeError.
Proof.
  destruct (init 8 (-2) ones_gen) as [[k g']|err] eqn:Hi; [|discriminate].
  exists k, g'. split; [reflexivity|].
  apply (negative_heads_kernel_raises 8 (-2) ones_gen g' k wide8_x PyNone
           1 2 8 Hi); [lia|reflexivity].
Defined.

(* ================================================================== *)
(** ** The attention display script: the vocabulary *)
(* ================================================================== *)

(** The characters of a string are taken as code points below 256; those
    that [str.isspace] accepts in that range are tab to carriage return,
    the four separators 28 to 31, the space, 133 and 160. *)
Definition is_space (c : Ascii.ascii) : bool :=
  let n := Ascii.nat_of_ascii c in
  ((9 <=? n) && (n <=? 13)) || ((28 <=? n) && (n <=? 32))
  || (n =? 133) || (n =? 160).

Definition flush_word (word : list Ascii.ascii) : list string :=
  match word with
  | [] => []
  | _ => [string_of_list_ascii (rev word)]
  end.

(** [s.split()]: the maximal runs of characters that are not white space.
    [word] holds the run being read, last character first. *)
Fixpoint split_go (word : list Ascii.ascii) (s : string) : list string :=
  match s with
  | EmptyString => flush_word word
  | String c s' =>
      if is_space c then flush_word word ++ split_go [] s'
      else split_go (c :: word) s'
  end.

Definition py_split (s : string) : list string := split_go [] s.

(** A Python dictionary: the items in insertion order.  Assigning to a key
    that is present replaces its value where it stands. *)
Definition pydict (V : Type) : Type := list (string * V).

Fixpoint dict_set {V : Type} (d : pydict V) (key : string) (v : V) : pydict V :=
  match d with
  | [] => [(key, v)]
  | (key', v') :: d' =>
      if String.eqb key' key then (key', v) :: d'
      else (key', v') :: dict_set d' key v
  end.

Definition dict_get {V : Type} (d : pydict V) (key : string) : option V :=
  option_map snd (find (fun kv => String.eqb (fst kv) key) d).

Definition dict_keys {V : Type} (d : pydict V) : list string := map fst d.

(** [enumerate(l)], counting from [n]. *)
Definition enumerate_from {A : Type} (n : nat) (l : list A) : list (nat * A) :=
  combine (seq n (List.length l)) l.

(** [{word: idx for idx, word in enumerate(words)}]. *)
Definition build_vocab (words : list string) : pydict nat :=
  fold_left (fun d iw => dict_set d (snd iw) (fst iw)) (enumerate_from 0 words) [].

(** The sentence of the script. *)
Definition demo_sentence : string :=
  "The black cat sleeps on the carpet while the dog barks in the garden".

Example demo_sentence_words :
  py_split demo_sentence
  = ["The"; "black"; "cat"; "sleeps"; "on"; "the"; "carpet"; "while"; "the";
     "dog"; "barks"; "in"; "the"; "garden"]%string.
Proof. reflexivity. Qed.

Example demo_sentence_vocab :
  build_vocab (py_split demo_sentence)
  = [("The", 0); ("black", 1); ("cat", 2); ("sleeps", 3); ("on", 4);
     ("the", 12); ("carpet", 6); ("while", 7); ("dog", 9); ("barks", 10);
     ("in", 11); ("garden", 13)]%string.
Proof. reflexivity. Qed.

(** The words of a list, each at its first occurrence. *)
Fixpoint first_occurrences (words : list string) : list string :=
  match words with
  | [] => []
  | w :: rest =>
      w :: filter (fun u => negb (String.eqb u w)) (first_occurrences rest)
  end.

Definition mem_string (w : string) (l : list string) : bool :=
  existsb (String.eqb w) l.

Lemma mem_string_In (w : string) (l : list string) :
  mem_string w l = true <-> In w l.
Proof.
  unfold mem_string. rewrite existsb_exists. split.
  - intros (u & Hu & He). apply String.eqb_eq in He. now subst.
  - intros Hin. exists w. split; [exact Hin|apply String.eqb_refl].
Qed.

Lemma dict_keys_set {V : Type} (d : pydict V) (key : string) (v : V) :
  dict_keys (dict_set d key v)
  = if mem_string key (dict_keys d) then dict_keys d else dict_keys d ++ [key].
Proof.
  induction d as [|[key' v'] d IH]; cbn [dict_set dict_keys map mem_string existsb fst].
  - reflexivity.
  - rewrite (String.eqb_sym key key').
    destruct (String.eqb key' key) eqn:He; cbn [orb map fst].
    + reflexivity.
    + fold (dict_keys (dict_set d key v)). fold (dict_keys d).
      fold (mem_string key (dict_keys d)). rewrite IH.
      now destruct (mem_string key (dict_keys d)).
Qed.

Lemma dict_get_set {V : Type} (d : pydict V) (key key' : string) (v : V) :
  dict_get (dict_set d key v) key'
  = if String.eqb key key' then Some v else dict_get d key'.
Proof.
  unfold dict_get.
  induction d as [|[k0 v0] d IH]; cbn [dict_set find fst].
  - destruct (String.eqb key key'); reflexivity.
  - destruct (String.eqb k0 key) eqn:He; cbn [find fst].
    + apply String.eqb_eq in He. subst k0.
      destruct (String.eqb key key'); reflexivity.
    + destruct (String.eqb k0 key') eqn:He'.
      * apply String.eqb_eq in He'. subst k0.
        rewrite String.eqb_sym, He. reflexivity.
      * exact IH.
Qed.

Lemma filter_absorb {A : Type} (P Q : A -> bool) (l : list A) :
  (forall u, P u = true -> Q u = true) ->
  filter P (filter Q l) = filter P l.
Proof.
  intros HPQ. induction l as [|a l IH]; cbn [filter]; [reflexivity|].
  destruct (Q a) eqn:HQ; cbn [filter].
  - now rewrite IH.
  - destruct (P a) eqn:HP; [|exact IH].
    apply HPQ in HP. congruence.
Qed.

Lemma filter_both {A : Type} (P Q : A -> bool) (l : list A) :
  filter P (filter Q l) = filter (fun u => Q u && P u) l.
Proof.
  induction l as [|a l IH]; cbn [filter]; [reflexivity|].
  destruct (Q a); cbn [filter andb]; [|exact IH].
  now rewrite IH.
Qed.

Lemma filter_length_le {A : Type} (P : A -> bool) (l : list A) :
  List.length (filter P l) <= List.length l.
Proof.
  induction l as [|a l IH]; cbn [filter List.length]; [lia|].
  destruct (P a); cbn [List.length]; lia.
Qed.

Lemma filter_length_all {A : Type} (P : A -> bool) (l : list A) :
  List.length (filter P l) = List.length l -> forall u, In u l -> P u = true.
Proof.
  induction l as [|a l IH]; cbn [filter List.length]; [intros _ u []|].
  pose proof (filter_length_le P l) as Hle.
  destruct (P a) eqn:HP; cbn [List.length]; intros Hlen u [<-|Hin];
    try lia; [exact HP|apply IH; [lia|exact Hin]].
Qed.

Lemma first_occurrences_In (ws : list string) (u : string) :
  In u (first_occurrences ws) <-> In u ws.
Proof.
  induction ws as [|w ws IH]; cbn [first_occurrences In]; [tauto|].
  rewrite filter_In, IH.
  destruct (String.eqb_spec u w) as [->|Hne]; cbn [negb].
  - split; [tauto|]. intros _. now left.
  - split; [tauto|]. intros [->|Hin]; [contradiction|]. right. now split.
Qed.

Lemma first_occurrences_NoDup (ws : list string) : NoDup (first_occurrences ws).
Proof.
  induction ws as [|w ws IH]; cbn [first_occurrences]; constructor.
  - rewrite filter_In. intros [_ Hne].
    now rewrite String.eqb_refl in Hne.
  - now apply NoDup_filter.
Qed.

Lemma first_occurrences_length (ws : list string) :
  List.length (first_occurrences ws) <= List.length ws /\
  (List.length (first_occurrences ws) = List.length ws <-> NoDup ws).
Proof.
  induction ws as [|w ws [IHle IHeq]]; cbn [first_occurrences List.length].
  - split; [lia|]. split; [constructor|reflexivity].
  - pose proof (filter_length_le (fun u => negb (String.eqb u w))
                  (first_occurrences ws)) as Hf.
    split; [lia|]. split.
    + intros Hlen.
      assert (List.length (filter (fun u => negb (String.eqb u w))
                             (first_occurrences ws))
              = List.length (first_occurrences ws)) as Hall by lia.
      constructor.
      * intros Hin. apply (proj2 (first_occurrences_In ws w)) in Hin.
        apply (filter_length_all _ _ Hall) in Hin.
        now rewrite String.eqb_refl in Hin.
      * apply IHeq. lia.
    + intros Hnd. inversion Hnd as [|w' ws' Hnin Hnd']; subst.
      f_equal. rewrite <- (proj2 IHeq Hnd'). f_equal.
      apply forallb_filter_id. apply forallb_forall. intros u Hu.
      apply (proj1 (first_occurrences_In ws u)) in Hu.
      destruct (String.eqb_spec u w) as [->|]; [contradiction|reflexivity].
Qed.

(** The position of the last occurrence of a word. *)
Fixpoint last_index (ws : list string) (w : string) : option nat :=
  match ws with
  | [] => None
  | u :: rest =>
      match last_index rest w with
      | Some i => Some (S i)
      | None => if String.eqb u w then Some 0 else None
      end
  end.

Lemma last_index_None (ws : list string) (w : string) :
  last_index ws w = None <-> ~ In w ws.
Proof.
  induction ws as [|u ws IH]; cbn [last_index In]; [tauto|].
  destruct (last_index ws w) as [i|].
  - split; [discriminate|]. intros Hn. exfalso.
    assert (~ In w ws) as Hw by tauto. apply IH in Hw. discriminate.
  - destruct (String.eqb_spec u w) as [->|Hne].
    + split; [discriminate|tauto].
    + split; [|reflexivity]. intros _ [Heq|Hin]; [contradiction|].
      now apply (proj1 IH).
Qed.

Lemma last_index_spec (ws : list string) (w : string) (i : nat) :
  last_index ws w = Some i <->
  nth_error ws i = Some w /\ forall j, i < j -> nth_error ws j <> Some w.
Proof.
  revert i. induction ws as [|u ws IH]; intros i; cbn [last_index].
  - split; [discriminate|]. intros [Hn _]. now destruct i.
  - destruct (last_index ws w) as [i0|] eqn:Hl.
    + pose proof (proj1 (IH i0) eq_refl) as [Hnth Hlater]. split.
      * intros Hi. injection Hi as <-. cbn [nth_error]. split; [exact Hnth|].
        intros [|j] Hj; [lia|]. cbn [nth_error]. apply Hlater. lia.
      * intros [Hn Hl']. destruct i as [|i].
        -- exfalso. apply (Hl' (S i0)); [lia|exact Hnth].
        -- cbn [nth_error] in Hn. f_equal. f_equal.
           destruct (Nat.lt_trichotomy i i0) as [Hlt|[->|Hgt]];
             [|reflexivity|].
           ++ exfalso. apply (Hl' (S i0)); [lia|exact Hnth].
           ++ exfalso. now apply (Hlater i).
    + apply last_index_None in Hl.
      destruct (String.eqb_spec u w) as [->|Hne].
      * split.
        -- intros Hi. injection Hi as <-. cbn [nth_error]. split; [reflexivity|].
           intros [|j] Hj; [lia|]. cbn [nth_error]. intros Hn.
           apply Hl. now apply nth_error_In in Hn.
        -- intros [Hn _]. destruct i as [|i]; [reflexivity|].
           cbn [nth_error] in Hn. apply nth_error_In in Hn. contradiction.
      * split; [discriminate|]. intros [Hn _]. destruct i as [|i].
        -- cbn [nth_error] in Hn. congruence.
        -- cbn [nth_error] in Hn. apply nth_error_In in Hn. contradiction.
Qed.

Definition vocab_step (d : pydict nat) (iw : nat * string) : pydict nat :=
  dict_set d (snd iw) (fst iw).

Lemma vocab_keys_from (ws : list string) (n : nat) (d : pydict nat) :
  dict_keys (fold_left vocab_step (enumerate_from n ws) d)
  = dict_keys d
    ++ filter (fun u => negb (mem_string u (dict_keys d))) (first_occurrences ws).
Proof.
  revert n d. induction ws as [|w ws IH]; intros n d.
  - cbn. now rewrite app_nil_r.
  - change (enumerate_from n (w :: ws)) with ((n, w) :: enumerate_from (S n) ws).
    cbn [fold_left first_occurrences filter]. rewrite IH.
    unfold vocab_step at 1 2. cbn [fst snd]. rewrite dict_keys_set.
    destruct (mem_string w (dict_keys d)) eqn:Hmem; cbn [negb].
    + f_equal. symmetry. apply filter_absorb.
      intros u Hu. destruct (String.eqb_spec u w) as [->|]; [|reflexivity].
      now rewrite Hmem in Hu.
    + rewrite <- app_assoc. cbn [app]. f_equal. f_equal.
      rewrite filter_both. apply filter_ext. intros u.
      unfold mem_string. rewrite existsb_app. cbn [existsb].
      rewrite orb_false_r, negb_orb. apply andb_comm.
Qed.

Lemma vocab_get_from (ws : list string) (n : nat) (d : pydict nat) (w : string) :
  dict_get (fold_left vocab_step (enumerate_from n ws) d) w
  = match last_index ws w with
    | Some i => Some (n + i)
    | None => dict_get d w
    end.
Proof.
  revert n d. induction ws as [|u ws IH]; intros n d.
  - reflexivity.
  - change (enumerate_from n (u :: ws)) with ((n, u) :: enumerate_from (S n) ws).
    cbn [fold_left last_index]. rewrite IH.
    destruct (last_index ws w) as [i|].
    + f_equal. lia.
    + unfold vocab_step. cbn [fst snd]. rewrite dict_get_set.
      destruct (String.eqb u w); [f_equal; lia|reflexivity].
Qed.

(** X9.  The vocabulary of the script has one key per distinct word, in
    the order of the first occurrences, and maps a word to the position of
    its last occurrence in the sentence. *)
Theorem vocab_keys_and_values (words : list string) :
  dict_keys (build_vocab words) = first_occurrences words /\
  NoDup (dict_keys (build_vocab words)) /\
  (forall w, In w (dict_keys (build_vocab words)) <-> In w words) /\
  (forall w i,
     dict_get (build_vocab words) w = Some i <->
     nth_error words i = Some w /\
     forall j, i < j -> nth_error words j <> Some w).
Proof.
  assert (dict_keys (build_vocab words) = first_occurrences words) as Hkeys.
  { unfold build_vocab. fold vocab_step. rewrite vocab_keys_from.
    cbn [dict_keys map app mem_string existsb negb].
    apply forallb_filter_id. apply forallb_forall. reflexivity. }
  split; [exact Hkeys|]. rewrite Hkeys.
  split; [apply first_occurrences_NoDup|].
  split; [intros w; apply first_occurrences_In|].
  intros w i. unfold build_vocab. fold vocab_step. rewrite vocab_get_from.
  cbn [Nat.add]. rewrite <- last_index_spec.
  destruct (last_index words w); [reflexivity|].
  split; discriminate.
Qed.

(** X10.  The vocabulary has at most as many entries as the sentence has
    words, and as many exactly when no word is repeated.  With a repeated
    word, the value stored for the last word of the sentence is not below
    the size of the vocabulary: the stored positions are not row numbers
    of the table of [len(vocab)] embeddings. *)
Theorem vocab_size (words : list string) :
  List.length (build_vocab words) <= List.length words /\
  (List.length (build_vocab words) = List.length words <-> NoDup words) /\
  (~ NoDup words ->
   exists w i, dict_get (build_vocab words) w = Some i /\
               List.length (build_vocab words) <= i).
Proof.
  assert (List.length (build_vocab words)
          = List.length (first_occurrences words)) as Hlen.
  { rewrite <- (length_map fst). fold (dict_keys (build_vocab words)).
    unfold build_vocab. fold vocab_step. rewrite vocab_keys_from.
    cbn [dict_keys map app mem_string existsb negb].
    f_equal. apply forallb_filter_id. apply forallb_forall. reflexivity. }
  rewrite Hlen.
  destruct (first_occurrences_length words) as [Hle Heq].
  split; [exact Hle|]. split; [exact Heq|].
  intros Hdup.
  assert (List.length (first_occurrences words) < List.length words) as Hlt.
  { destruct (Nat.eq_dec (List.length (first_occurrences words))
                (List.length words)) as [He|Hne]; [|lia].
    exfalso. apply Hdup. now apply Heq. }
  destruct (exists_last (l := words)) as (front & w & ->).
  { intros ->. apply Hdup. constructor. }
  exists w, (List.length front). split.
  - unfold build_vocab. fold vocab_step. rewrite vocab_get_from.
    cbn [Nat.add].
    assert (last_index (front ++ [w]) w = Some (List.length front)) as ->;
      [|reflexivity].
    apply last_index_spec. split.
    + rewrite nth_error_app2 by lia. now rewrite Nat.sub_diag.
    + intros j Hj Hn.
      assert (j < List.length (front ++ [w])) as Hj'
        by (apply nth_error_Some; congruence).
      rewrite length_app in Hj'. cbn [List.length] in Hj'. lia.
  - rewrite length_app in Hlt. cbn [List.length] in Hlt. lia.
Qed.

Example demo_vocab_out_of_table :
  List.length (build_vocab (py_split demo_sentence)) = 12 /\
  dict_get (build_vocab (py_split demo_sentence)) "garden" = Some 13.
Proof. split; reflexivity. Qed.

(* ================================================================== *)
(** ** The attention display script: the weights and the report *)
(* ================================================================== *)

From Stdlib Require Import Sorted.

(** [torch.randn(rows, cols)]: the entries are drawn from the generator. *)
Definition randn2 (rows : nat) (cols : Z) (g : generator)
  : result (tensor R * generator) :=
  if (cols <? 0)%Z then Raise RuntimeError
  else
    let c := Z.to_nat cols in
    Ok (mkTensor [rows; c] (fun idx => draws g (cursor g + ravel [rows; c] idx)),
        mkGen (draws g) (cursor g + rows * c)).

(** [t.unsqueeze(0)]. *)
Definition unsqueeze0 {A : Type} (t : tensor A) : tensor A :=
  mkTensor (1 :: shape t) (fun idx => elem t (tl idx)).

(** The block under [torch.no_grad()]: the attention weights of the kernel
    [sa] for the input [x], recomputed outside of [forward] with the sizes
    of the script. *)
Definition demo_attention (sa : SelfAttention) (x : tensor R) (n : nat)
  (heads embed_size : Z) : result (tensor R) :=
  y <- linear (to_qkv sa) x ;;
  let qkv := chunk 3 y in
  qkv' <- mapM (fun t =>
                  hd <- py_floordiv embed_size heads ;;
                  t' <- view t [1%Z; Z.of_nat n; heads; hd] ;;
                  transpose 1 2 t') qkv ;;
  match qkv' with
  | [q; k; v] =>
      kt <- transpose (-2) (-1) k ;;
      qk <- matmul q kt ;;
      let scores := mul_scalar qk (real_part (scale sa)) in
      match scale sa with
      | PyFloat _ => Ok (softmax scores)
      | PyComplex _ _ => Raise RuntimeError
      end
  | _ => Raise ValueError
  end.

(** [t[a, b, c]] for a tensor of rank 4: the row as a list. *)
Definition index3 (t : tensor R) (a b c : nat) : result (list R) :=
  match shape t with
  | [d0; d1; d2; d3] =>
      if (a <? d0) && (b <? d1) && (c <? d2)
      then Ok (map (fun j => elem t [a; b; c; j]) (seq 0 d3))
      else Raise IndexError
  | _ => Raise IndexError
  end.

Definition Rle_bool (a b : R) : bool := if Rle_dec a b then true else false.

(** Insertion into a list of (index, value) pairs ordered by decreasing
    value; among equal values the lower index comes first (the library
    leaves the order of equal values open). *)
Fixpoint insert_desc (p : nat * R) (l : list (nat * R)) : list (nat * R) :=
  match l with
  | [] => [p]
  | q :: r =>
      if Rle_bool (snd q) (snd p) then p :: q :: r
      else q :: insert_desc p r
  end.

Definition sort_desc (l : list (nat * R)) : list (nat * R) :=
  fold_right insert_desc [] l.

(** [row.topk(k).indices]: the positions of the [k] largest entries, the
    largest first; an error when the row has fewer than [k] entries. *)
Definition topk_indices (k : nat) (row : list R) : result (list nat) :=
  if List.length row <? k then Raise RuntimeError
  else Ok (map fst (firstn k (sort_desc (enumerate_from 0 row)))).

(** The inner loop for the word at position [i]: its three strongest keys
    with their weights. *)
Definition display_word (vocab : pydict nat) (attention_weights : tensor R)
  (i : nat) (word1 : string) : result (string * list (string * R)) :=
  weights <- index3 attention_weights 0 0 i ;;
  top_indices <- topk_indices 3 weights ;;
  entries <- mapM (fun idx =>
                     match nth_error (dict_keys vocab) idx,
                           nth_error weights idx with
                     | Some word2, Some weight => Ok (word2, weight)
                     | _, _ => Raise IndexError
                     end) top_indices ;;
  Ok (word1, entries).

(** The script: what it prints, as one block per word of the vocabulary,
    each block holding the (word, weight) pairs of its lines. *)
Definition attention_demo (sentence : string) (embed_size heads : Z)
  (g : generator) : result (list (string * list (string * R))) :=
  let vocab := build_vocab (py_split sentence) in
  let n := List.length vocab in
  ' (word_embeddings, g1) <- randn2 n embed_size g ;;
  let x := unsqueeze0 word_embeddings in
  ' (sa, _) <- init embed_size heads g1 ;;
  attention_weights <- demo_attention sa x n heads embed_size ;;
  mapM (fun iw => display_word vocab attention_weights (fst iw) (snd iw))
       (enumerate_from 0 (dict_keys vocab)).

Lemma mapM_ext {A B : Type} (f f' : A -> result B) (l : list A) :
  (forall a, f a = f' a) -> mapM f l = mapM f' l.
Proof.
  intros Hff. induction l as [|a l IH]; cbn [mapM]; [reflexivity|].
  now rewrite Hff, IH.
Qed.

(** Whenever [forward] succeeds on a kernel returned by the constructor,
    the script computes the attention weights of that call. *)
Lemma demo_attention_of_trace (e h : Z) (g g' : generator)
  (sa : SelfAttention) (x : tensor R) (n W : nat) (tr : trace) :
  init e h g = Ok (sa, g') -> shape x = [1; n; W] ->
  forward_trace sa x PyNone = Ok tr ->
  demo_attention sa x n h e = Ok (tr_attn tr).
Proof.
  intros Hi Hx Htr.
  destruct (init_fields e h g g' sa Hi) as ((Hh & _ & _) & _ & Hheads & Hhd & _).
  unfold forward_trace in Htr. rewrite Hx, Hheads, Hhd in Htr.
  unfold demo_attention.
  destruct (linear (to_qkv sa) x) as [y|err]; [|discriminate].
  cbn [bind] in Htr |- *.
  rewrite (mapM_ext _
             (fun t => t' <- view t [Z.of_nat 1; Z.of_nat n; h; (e / h)%Z] ;;
                       transpose 1 2 t')).
  2:{ intros t. unfold py_floordiv.
      destruct (Z.eqb_spec h 0); [contradiction|reflexivity]. }
  destruct (mapM _ (chunk 3 y)) as [qkv|err]; [|discriminate].
  cbn [bind] in Htr |- *.
  destruct qkv as [|q [|kk [|v [|extra qkv]]]]; try discriminate.
  destruct (transpose (-2) (-1) kk) as [kt|err]; [|discriminate].
  cbn [bind] in Htr |- *.
  destruct (matmul q kt) as [qk|err]; [|discriminate].
  cbn [bind] in Htr |- *.
  destruct (scale sa) as [r|re im]; [|discriminate].
  cbn [bind real_part] in Htr |- *.
  destruct (matmul (softmax (mul_scalar qk r)) v) as [ctx|err]; [|discriminate].
  cbn [bind] in Htr.
  destruct (transpose 1 2 ctx) as [ct|err]; [|discriminate].
  cbn [bind] in Htr.
  destruct (reshape ct _) as [c'|err]; [|discriminate].
  cbn [bind] in Htr.
  destruct (linear (to_out sa) c') as [out|err]; [|discriminate].
  cbn [bind] in Htr. injection Htr as <-. reflexivity.
Qed.

Lemma valid_width (e h : Z) :
  (0 < e)%Z -> (0 < h)%Z -> (e mod h = 0)%Z ->
  Z.to_nat e = Z.to_nat h * Z.to_nat (e / h) /\ (0 < e / h)%Z.
Proof.
  intros He Hh Hm.
  assert (e = h * (e / h))%Z as Hdiv by (pose proof (Z.div_mod e h); lia).
  assert (0 < e / h)%Z as Hq.
  { apply Z.nle_gt. intros Hle.
    pose proof (Z.mul_nonneg_nonpos h (e / h)). lia. }
  split; [|exact Hq].
  rewrite <- Z2Nat.inj_mul by lia. now rewrite <- Hdiv.
Qed.

(** X11.  For a kernel built with a width that its heads divide and an
    input of one batch of [n] tokens, the weights that the script computes
    by hand are the weights that [forward] computes inside the kernel for
    the same input without mask: the display shows what the kernel does. *)
Theorem demo_attention_is_forward_attention (e h : Z) (g g' : generator)
  (sa : SelfAttention) (x : tensor R) (n : nat) :
  init e h g = Ok (sa, g') ->
  (0 < e)%Z -> (0 < h)%Z -> (e mod h = 0)%Z ->
  shape x = [1; n; Z.to_nat e] ->
  exists tr,
    forward_trace sa x PyNone = Ok tr /\
    demo_attention sa x n h e = Ok (tr_attn tr) /\
    shape (tr_attn tr) = [1; Z.to_nat h; n; n].
Proof.
  intros Hi He Hh Hm Hx.
  pose proof (init_wf e h g g' sa Hi He Hh Hm) as Hwf.
  destruct (valid_width e h He Hh Hm) as [HE _]. rewrite HE in Hx.
  destruct (forward_trace_ok sa x PyNone 1 n _ _ Hwf Hx I) as (tr & Htr & Hts).
  exists tr. split; [exact Htr|]. split.
  - exact (demo_attention_of_trace e h g g' sa x n _ tr Hi Hx Htr).
  - rewrite (ts_attn Hts). exact (ts_scores_shape Hts).
Qed.

Lemma demo_attention_is_forward_attention_witness :
  exists tr,
    forward_trace ones_kernel ones_x PyNone = Ok tr /\
    demo_attention ones_kernel ones_x 3 1 2 = Ok (tr_attn tr).
Proof.
  destruct (demo_attention_is_forward_attention 2 1 ones_gen _ ones_kernel
              ones_x 3 ones_kernel_built ltac:(lia) ltac:(lia) eq_refl eq_refl)
    as (tr & Htr & Hdemo & _).
  exists tr. split; assumption.
Defined.

(* ================================================================== *)
(** ** The largest entries of a row *)
(* ================================================================== *)

Section TopK.
Local Open Scope R_scope.

(** [p] stands before [q] when its value is at least that of [q]. *)
Definition ge_snd (p q : nat * R) : Prop := snd q <= snd p.

Lemma Rle_bool_true (a b : R) : Rle_bool a b = true <-> a <= b.
Proof. unfold Rle_bool. destruct (Rle_dec a b); split; congruence. Qed.

Lemma Rle_bool_false (a b : R) : Rle_bool a b = false <-> b < a.
Proof.
  unfold Rle_bool. destruct (Rle_dec a b); split; try congruence; lra.
Qed.

Lemma insert_desc_perm (p : nat * R) (l : list (nat * R)) :
  Permutation (insert_desc p l) (p :: l).
Proof.
  induction l as [|q l IH]; cbn [insert_desc]; [reflexivity|].
  destruct (Rle_bool (snd q) (snd p)); [reflexivity|].
  rewrite IH. apply perm_swap.
Qed.

Lemma sort_desc_perm (l : list (nat * R)) : Permutation (sort_desc l) l.
Proof.
  induction l as [|p l IH]; cbn [sort_desc fold_right]; [reflexivity|].
  fold (sort_desc l). rewrite insert_desc_perm. now constructor.
Qed.

Lemma insert_desc_sorted (p : nat * R) (l : list (nat * R)) :
  StronglySorted ge_snd l -> StronglySorted ge_snd (insert_desc p l).
Proof.
  induction l as [|q l IH]; intros Hs; cbn [insert_desc].
  - constructor; constructor.
  - apply StronglySorted_inv in Hs as [Hl Hq].
    destruct (Rle_bool (snd q) (snd p)) eqn:Hle.
    + apply Rle_bool_true in Hle.
      constructor; [constructor; assumption|].
      constructor; [exact Hle|].
      eapply Forall_impl; [|exact Hq].
      intros r Hr. unfold ge_snd in *. lra.
    + apply Rle_bool_false in Hle.
      constructor; [now apply IH|].
      apply (Permutation_Forall (Permutation_sym (insert_desc_perm p l))).
      constructor; [unfold ge_snd; lra|exact Hq].
Qed.

Lemma sort_desc_sorted (l : list (nat * R)) :
  StronglySorted ge_snd (sort_desc l).
Proof.
  induction l as [|p l IH]; cbn [sort_desc fold_right]; [constructor|].
  now apply insert_desc_sorted.
Qed.

Lemma sorted_app_cross {A : Type} (Rel : A -> A -> Prop) (l1 l2 : list A) :
  StronglySorted Rel (l1 ++ l2) ->
  forall a b, In a l1 -> In b l2 -> Rel a b.
Proof.
  induction l1 as [|c l1 IH]; intros Hs a b Ha Hb; [destruct Ha|].
  cbn [app] in Hs. apply StronglySorted_inv in Hs as [Hl Hc].
  destruct Ha as [<-|Ha]; [|now apply IH].
  rewrite Forall_forall in Hc. apply Hc. apply in_or_app. now right.
Qed.

Lemma sorted_app_left {A : Type} (Rel : A -> A -> Prop) (l1 l2 : list A) :
  StronglySorted Rel (l1 ++ l2) -> StronglySorted Rel l1.
Proof.
  induction l1 as [|c l1 IH]; intros Hs; [constructor|].
  cbn [app] in Hs. apply StronglySorted_inv in Hs as [Hl Hc].
  constructor; [now apply IH|].
  rewrite Forall_forall in Hc |- *. intros a Ha. apply Hc.
  apply in_or_app. now left.
Qed.

Lemma sorted_map {A B : Type} (RA : A -> A -> Prop) (RB : B -> B -> Prop)
  (f : A -> B) (l : list A) :
  (forall a b, In a l -> In b l -> RA a b -> RB (f a) (f b)) ->
  StronglySorted RA l -> StronglySorted RB (map f l).
Proof.
  induction l as [|c l IH]; intros Hf Hs; cbn [map]; [constructor|].
  apply StronglySorted_inv in Hs as [Hl Hc].
  constructor.
  - apply IH; [|exact Hl]. intros a b Ha Hb. apply Hf; now right.
  - rewrite Forall_forall in Hc |- *. intros y Hy.
    apply in_map_iff in Hy as (a & <- & Ha).
    apply Hf; [now left|now right|now apply Hc].
Qed.

Lemma enumerate_from_fst {A : Type} (n : nat) (l : list A) :
  map fst (enumerate_from n l) = seq n (List.length l).
Proof.
  unfold enumerate_from. revert n.
  induction l as [|a l IH]; intros n; cbn; [reflexivity|].
  now rewrite IH.
Qed.

Lemma enumerate_from_snd {A : Type} (n : nat) (l : list A) :
  map snd (enumerate_from n l) = l.
Proof.
  unfold enumerate_from. revert n.
  induction l as [|a l IH]; intros n; cbn; [reflexivity|].
  now rewrite IH.
Qed.

Lemma enumerate_from_In {A : Type} (l : list A) (i : nat) (v : A) :
  In (i, v) (enumerate_from 0 l) <-> nth_error l i = Some v.
Proof.
  unfold enumerate_from.
  assert (forall n, In (i, v) (combine (seq n (List.length l)) l)
                    <-> n <= i /\ nth_error l (i - n) = Some v)%nat as Hgen.
  { induction l as [|a l IH]; intros n; cbn [List.length seq combine In].
    - split; [tauto|]. intros [_ Hn]. now destruct (i - n)%nat.
    - rewrite IH. split.
      + intros [Heq|[Hle Hn]].
        * injection Heq as <- <-. rewrite Nat.sub_diag. split; [lia|reflexivity].
        * split; [lia|].
          replace (i - n)%nat with (S (i - S n)) by lia. exact Hn.
      + intros [Hle Hn]. destruct (Nat.eq_dec i n) as [->|Hne].
        * left. rewrite Nat.sub_diag in Hn. cbn in Hn. congruence.
        * right. split; [lia|].
          replace (i - n)%nat with (S (i - S n)) in Hn by lia. exact Hn. }
  rewrite Hgen, Nat.sub_0_r. split; [tauto|]. intros Hn. split; [lia|exact Hn].
Qed.

Lemma in_firstn {A : Type} (k : nat) (l : list A) (a : A) :
  In a (firstn k l) -> In a l.
Proof.
  intros Ha. rewrite <- (firstn_skipn k l). apply in_or_app. now left.
Qed.

(** What [topk_indices] returns on a row with at least [k] entries: [k]
    different positions of the row, by decreasing entry, whose entries are
    not below any entry left out. *)
Lemma topk_indices_spec (k : nat) (row : list R) :
  (k <= List.length row)%nat ->
  exists idxs,
    topk_indices k row = Ok idxs /\
    List.length idxs = k /\ NoDup idxs /\
    (forall i, In i idxs -> (i < List.length row)%nat) /\
    StronglySorted (fun i j => nth j row 0 <= nth i row 0) idxs /\
    (forall i j, In i idxs -> (j < List.length row)%nat -> ~ In j idxs ->
       nth j row 0 <= nth i row 0).
Proof.
  intros Hk. unfold topk_indices.
  destruct (Nat.ltb_spec (List.length row) k) as [Hlt|_]; [lia|].
  set (s := sort_desc (enumerate_from 0 row)).
  pose proof (sort_desc_perm (enumerate_from 0 row)) as Hperm. fold s in Hperm.
  pose proof (sort_desc_sorted (enumerate_from 0 row)) as Hsorted.
  fold s in Hsorted.
  assert (List.length s = List.length row) as Hlen.
  { rewrite (Permutation_length Hperm), <- (length_map fst).
    now rewrite enumerate_from_fst, length_seq. }
  assert (forall p, In p s -> nth_error row (fst p) = Some (snd p)) as Hval.
  { intros [i v] Hp. apply enumerate_from_In.
    now apply (Permutation_in _ Hperm). }
  assert (forall p, In p s -> nth (fst p) row 0 = snd p) as Hnth.
  { intros p Hp. now apply nth_error_nth, Hval. }
  assert (NoDup (map fst s)) as Hnd.
  { apply (Permutation_NoDup (l := seq 0 (List.length row))); [|apply seq_NoDup].
    rewrite <- (enumerate_from_fst 0 row).
    apply Permutation_map. now apply Permutation_sym. }
  rewrite <- (firstn_skipn k s) in Hsorted, Hnd.
  rewrite map_app in Hnd.
  eexists. split; [reflexivity|].
  split; [rewrite length_map, length_firstn; lia|].
  split; [now apply NoDup_app_remove_r in Hnd|].
  split.
  { intros i Hi. apply in_map_iff in Hi as (p & <- & Hp).
    apply in_firstn in Hp. apply nth_error_Some. rewrite (Hval p Hp). discriminate. }
  split.
  { apply (sorted_map ge_snd); [|now apply sorted_app_left in Hsorted].
    intros a b Ha Hb Hab. apply in_firstn in Ha, Hb.
    rewrite (Hnth a Ha), (Hnth b Hb). exact Hab. }
  intros i j Hi Hj Hnj.
  apply in_map_iff in Hi as (p & <- & Hp).
  destruct (nth_error row j) as [vj|] eqn:Hvj;
    [|apply nth_error_None in Hvj; lia].
  assert (In (j, vj) s) as Hjs.
  { apply (Permutation_in _ (Permutation_sym Hperm)).
    now apply enumerate_from_In. }
  rewrite <- (firstn_skipn k s) in Hjs. apply in_app_or in Hjs as [Hjf|Hjr].
  { exfalso. apply Hnj. apply in_map_iff. now exists (j, vj). }
  pose proof (sorted_app_cross ge_snd _ _ Hsorted p (j, vj) Hp Hjr) as Hge.
  rewrite (Hnth p (in_firstn _ _ _ Hp)).
  rewrite (nth_error_nth _ _ _ Hvj). exact Hge.
Qed.

End TopK.

(* ================================================================== *)
(** ** What the script prints *)
(* ================================================================== *)

Section Report.
Local Open Scope R_scope.

Lemma build_vocab_keys (words : list string) :
  dict_keys (build_vocab words) = first_occurrences words.
Proof.
  unfold build_vocab. fold vocab_step. rewrite vocab_keys_from.
  cbn [dict_keys map app mem_string existsb negb].
  apply forallb_filter_id. apply forallb_forall. reflexivity.
Qed.

Lemma build_vocab_length (words : list string) :
  List.length (build_vocab words) = List.length (first_occurrences words).
Proof.
  rewrite <- (length_map fst). fold (dict_keys (build_vocab words)).
  now rewrite build_vocab_keys.
Qed.

(** The rows of the attention weights of a trace. *)
Lemma attn_row_distribution (k : SelfAttention) (x : tensor R) (mask : pyvalue)
  (B S H D : nat) (tr : trace) (b h i : nat) :
  trace_spec k x mask B S H D tr ->
  (b < B)%nat -> (h < H)%nat -> (i < S)%nat ->
  rsum S (fun j => elem (tr_attn tr) [b; h; i; j]) = 1 /\
  forall j, (j < S)%nat -> 0 <= elem (tr_attn tr) [b; h; i; j] <= 1.
Proof.
  intros Hts Hb Hh Hi.
  assert (0 < S)%nat as HS by lia.
  pose proof (ts_scores_shape Hts) as Hsh.
  rewrite (ts_attn Hts). split.
  - rewrite (rsum_ext S _
      (fun j => exp (elem (tr_scores tr) [b; h; i; j])
                / rsum S (fun c => exp (elem (tr_scores tr) [b; h; i; c])))).
    + now apply (softmax_row_sum S (fun j => elem (tr_scores tr) [b; h; i; j])).
    + intros j _. now apply (softmax_elem4 _ B H S S).
  - intros j Hj. rewrite (softmax_elem4 _ B H S S) by assumption.
    now apply (softmax_row_bounds S
                 (fun c => elem (tr_scores tr) [b; h; i; c])).
Qed.

Lemma mapM_all_ok {A B : Type} (f : A -> result B) (P : A -> B -> Prop)
  (l : list A) :
  (forall a, In a l -> exists b, f a = Ok b /\ P a b) ->
  exists bs, mapM f l = Ok bs /\ Forall2 P l bs.
Proof.
  induction l as [|a l IH]; intros Hall; cbn [mapM].
  - exists []. split; [reflexivity|constructor].
  - destruct (Hall a (or_introl eq_refl)) as (b & -> & Hb).
    destruct IH as (bs & -> & Hbs); [intros a' Ha'; apply Hall; now right|].
    exists (b :: bs). split; [reflexivity|now constructor].
Qed.

(** A block of the report for a sentence with the distinct words [words]:
    three lines, for three different positions [idxs] of a row of weights
    that is a distribution over the words; the lines come by decreasing
    weight and no word left out has a larger weight. *)
Definition block_ok (words : list string) (block : string * list (string * R))
  : Prop :=
  exists (row : list R) (idxs : list nat),
    List.length row = List.length words /\
    list_sum_R row = 1 /\
    (forall v, In v row -> 0 <= v <= 1) /\
    List.length idxs = 3%nat /\ NoDup idxs /\
    (forall j, In j idxs -> (j < List.length words)%nat) /\
    snd block = map (fun j => (nth j words EmptyString, nth j row 0)) idxs /\
    StronglySorted (fun i j => nth j row 0 <= nth i row 0) idxs /\
    (forall i j, In i idxs -> (j < List.length words)%nat -> ~ In j idxs ->
       nth j row 0 <= nth i row 0).

Lemma index3_row (t : tensor R) (H n i : nat) :
  shape t = [1%nat; H; n; n] -> (0 < H)%nat -> (i < n)%nat ->
  index3 t 0 0 i = Ok (map (fun j => elem t [0; 0; i; j]%nat) (seq 0 n)).
Proof.
  intros Ht HH Hi. unfold index3. rewrite Ht.
  rewrite (proj2 (Nat.ltb_lt 0 H) HH), (proj2 (Nat.ltb_lt i n) Hi).
  reflexivity.
Qed.

Lemma display_word_short (vocab : pydict nat) (attn : tensor R)
  (H n i : nat) (w : string) :
  shape attn = [1%nat; H; n; n] -> (0 < H)%nat -> (i < n)%nat -> (n < 3)%nat ->
  display_word vocab attn i w = Raise RuntimeError.
Proof.
  intros Hs HH Hi Hn. unfold display_word.
  rewrite (index3_row attn H n i Hs HH Hi). cbn [bind].
  unfold topk_indices. rewrite length_map, length_seq.
  destruct (Nat.ltb_spec n 3); [reflexivity|lia].
Qed.

Lemma display_word_block (vocab : pydict nat) (attn : tensor R)
  (words : list string) (H i : nat) (w : string) :
  dict_keys vocab = words ->
  shape attn = [1%nat; H; List.length words; List.length words] ->
  (0 < H)%nat -> (i < List.length words)%nat ->
  (3 <= List.length words)%nat ->
  rsum (List.length words) (fun j => elem attn [0; 0; i; j]%nat) = 1 ->
  (forall j, (j < List.length words)%nat ->
     0 <= elem attn [0; 0; i; j]%nat <= 1) ->
  exists block,
    display_word vocab attn i w = Ok block /\
    fst block = w /\ block_ok words block.
Proof.
  intros Hkeys Hs HH Hi Hn Hsum Hbound.
  set (n := List.length words) in *.
  set (row := map (fun j => elem attn [0; 0; i; j]%nat) (seq 0 n)).
  assert (List.length row = n) as Hlen
    by (unfold row; now rewrite length_map, length_seq).
  unfold display_word. rewrite (index3_row attn H n i Hs HH Hi). cbn [bind].
  fold row.
  destruct (topk_indices_spec 3 row ltac:(lia))
    as (idxs & -> & Hl3 & Hnd & Hin & Hsorted & Hdom).
  cbn [bind]. rewrite Hlen in Hin, Hdom.
  assert (mapM (fun idx =>
                  match nth_error (dict_keys vocab) idx, nth_error row idx with
                  | Some word2, Some weight => Ok (word2, weight)
                  | _, _ => Raise IndexError
                  end) idxs
          = Ok (map (fun j => (nth j words EmptyString, nth j row 0)) idxs))
    as ->.
  { clear Hl3 Hnd Hsorted Hdom.
    induction idxs as [|j idxs IH]; cbn [mapM map]; [reflexivity|].
    assert (j < n)%nat as Hj by (apply Hin; now left).
    rewrite Hkeys.
    destruct (nth_error words j) as [wj|] eqn:Hw;
      [|apply nth_error_None in Hw; fold n in Hw; lia].
    destruct (nth_error row j) as [vj|] eqn:Hv;
      [|apply nth_error_None in Hv; lia].
    cbn [bind]. rewrite <- Hkeys, IH by (intros j' Hj'; apply Hin; now right).
    cbn [bind]. rewrite Hkeys.
    now rewrite (nth_error_nth _ _ _ Hw), (nth_error_nth _ _ _ Hv). }
  cbn [bind]. eexists. split; [reflexivity|]. split; [reflexivity|].
  exists row, idxs. cbn [snd].
  split; [exact Hlen|].
  split; [exact Hsum|].
  split.
  { intros v Hv. unfold row in Hv. apply in_map_iff in Hv as (j & <- & Hj).
    apply in_seq in Hj. apply Hbound. lia. }
  repeat split; assumption.
Qed.

End Report.

Section ScriptOutcome.
Local Open Scope R_scope.

Lemma init_valid_ok (e h : Z) (g : generator) :
  (0 < e)%Z -> (0 < h)%Z -> (e mod h = 0)%Z ->
  exists sa g', init e h g = Ok (sa, g').
Proof.
  intros He Hh Hm. destruct (valid_width e h He Hh Hm) as [_ Hq].
  rewrite init_cases.
  destruct (Z.eqb_spec h 0); [lia|].
  destruct (Z.ltb_spec e 0); [lia|].
  destruct (Z.eqb_spec (e / h) 0); [lia|].
  cbv zeta. now do 2 eexists.
Qed.

(** X12.  What the script does for a sentence, with a width that the
    heads divide.  With no word at all it prints nothing.  With one or two
    distinct words it raises RuntimeError, the three strongest keys being
    asked of a row of fewer than three.  With three or more it prints one
    block per distinct word, in the order of the first occurrences; each
    block lists three different words of the sentence with their attention
    weights, by decreasing weight, the weights of a block belonging to a
    row that sums to 1 and no other word having a larger weight. *)
Theorem attention_demo_outcome (sentence : string) (e h : Z) (g : generator) :
  (0 < e)%Z -> (0 < h)%Z -> (e mod h = 0)%Z ->
  let words := first_occurrences (py_split sentence) in
  (words = [] -> attention_demo sentence e h g = Ok []) /\
  ((0 < List.length words < 3)%nat ->
   attention_demo sentence e h g = Raise RuntimeError) /\
  ((3 <= List.length words)%nat ->
   exists report,
     attention_demo sentence e h g = Ok report /\
     map fst report = words /\
     Forall (block_ok words) report).
Proof.
  intros He Hh Hm words.
  pose proof (build_vocab_keys (py_split sentence)) as Hkeys. fold words in Hkeys.
  pose proof (build_vocab_length (py_split sentence)) as Hlen.
  fold words in Hlen.
  set (n := List.length words) in *.
  destruct (valid_width e h He Hh Hm) as [HE Hq].
  unfold attention_demo. rewrite Hlen. unfold randn2.
  destruct (Z.ltb_spec e 0) as [|_]; [lia|]. cbn [bind].
  set (x := unsqueeze0 _).
  set (g1 := mkGen _ _).
  destruct (init_valid_ok e h g1 He Hh Hm) as (sa & g2 & Hi).
  rewrite Hi. cbn [bind].
  pose proof (init_wf e h g1 g2 sa Hi He Hh Hm) as Hwf.
  assert (shape x = [1%nat; n; (Z.to_nat h * Z.to_nat (e / h))%nat]) as Hx
    by (unfold x, unsqueeze0; cbn [shape]; now rewrite HE).
  destruct (forward_trace_ok sa x PyNone 1 n _ _ Hwf Hx I) as (tr & Htr & Hts).
  rewrite (demo_attention_of_trace e h g1 g2 sa x n _ tr Hi Hx Htr).
  cbn [bind]. rewrite Hkeys.
  assert (shape (tr_attn tr) = [1%nat; Z.to_nat h; n; n]) as Hshape
    by (rewrite (ts_attn Hts); exact (ts_scores_shape Hts)).
  pose proof (wf_H Hwf) as HH.
  split; [|split].
  - intros Hw. now rewrite Hw.
  - intros [Hpos Hshort].
    destruct words as [|w0 rest] eqn:Hwords; [cbn in n; lia|].
    change (enumerate_from 0 (w0 :: rest))
      with ((0%nat, w0) :: enumerate_from 1 rest).
    cbn [mapM fst snd].
    now rewrite (display_word_short _ (tr_attn tr) (Z.to_nat h) n 0 w0
                   Hshape HH Hpos Hshort).
  - intros Hn.
    destruct (mapM_all_ok
                (fun iw => display_word (build_vocab (py_split sentence))
                             (tr_attn tr) (fst iw) (snd iw))
                (fun iw block => fst block = snd iw /\ block_ok words block)
                (enumerate_from 0 words)) as (report & Hrep & Hall).
    { intros [i w] Hin. cbn [fst snd].
      assert (i < n)%nat as Hi'.
      { apply enumerate_from_In in Hin. apply nth_error_Some. congruence. }
      destruct (attn_row_distribution sa x PyNone 1 n _ _ tr 0 0 i Hts
                  ltac:(lia) HH Hi') as [Hsum Hbound].
      destruct (display_word_block (build_vocab (py_split sentence))
                  (tr_attn tr) words (Z.to_nat h) i w Hkeys Hshape HH Hi' Hn
                  Hsum Hbound) as (block & Hb & Hfst & Hok).
      exists block. repeat split; assumption. }
    exists report. split; [exact Hrep|]. split.
    + transitivity (map snd (enumerate_from 0 words));
        [|apply enumerate_from_snd].
      clear Hrep. induction Hall as [|iw block l bl [Hf _] _ IH];
        cbn [map]; [reflexivity|]. now rewrite Hf, IH.
    + clear Hrep. induction Hall as [|iw block l bl [_ Hok] _ IH];
        constructor; assumption.
Qed.

Lemma attention_demo_outcome_witness :
  (exists report,
     attention_demo "a b c" 2 1 ones_gen = Ok report /\
     map fst report = ["a"; "b"; "c"]%string) /\
  attention_demo "hello world hello" 2 1 ones_gen = Raise RuntimeError.
Proof.
  split.
  - destruct (attention_demo_outcome "a b c" 2 1 ones_gen
                ltac:(lia) ltac:(lia) eq_refl) as (_ & _ & Hlong).
    destruct (Hlong (le_n 3)) as (report & Hrep & Hwords & _).
    exists report. split; assumption.
  - destruct (attention_demo_outcome "hello world hello" 2 1 ones_gen
                ltac:(lia) ltac:(lia) eq_refl) as (_ & Hshort & _).
    apply Hshort. vm_compute. split; lia.
Defined.

End ScriptOutcome.

(* ================================================================== *)
(** ** predict_sentiment *)
(* ================================================================== *)

(** An index [i] into an axis of size [n], negative values counting from
    the end. *)
Definition py_index (n : nat) (i : Z) : result nat :=
  if ((- Z.of_nat n <=? i) && (i <? Z.of_nat n))%Z
  then Ok (Z.to_nat (if (i <? 0)%Z then i + Z.of_nat n else i))
  else Raise IndexError.

(** [t[i]]: slice [i] of the first axis. *)
Definition select0 (t : tensor R) (i : Z) : result (tensor R) :=
  match shape t with
  | [] => Raise IndexError
  | d :: sh =>
      j <- py_index d i ;;
      Ok (mkTensor sh (fun idx => elem t (j :: idx)))
  end.

(** [t.item()]: the value of a tensor of one element. *)
Definition item (t : tensor R) : result R :=
  if numel (shape t) =? 1 then Ok (elem t (map (fun _ => 0) (shape t)))
  else Raise RuntimeError.

(** [prediction[i][j].item()]. *)
Definition entry2 (prediction : tensor R) (i j : Z) : result R :=
  row <- select0 prediction i ;;
  cell <- select0 row j ;;
  item cell.

Section Predict.
Local Open Scope R_scope.

(** The tokenizer and the fine-tuned classifier are collaborators: what
    [predict_sentiment] receives from them is the field [logits] of the
    output of the model for the text, a tensor of shape (1, num_labels),
    or their error. *)
Variable logits_of : string -> result (tensor R).

(** [predict_sentiment] of the two-class cell. *)
Definition predict_sentiment (text : string) : result (pydict R) :=
  logits <- logits_of text ;;
  let prediction := softmax logits in
  positive <- entry2 prediction 0 1 ;;
  negative <- entry2 prediction 0 0 ;;
  Ok [("positive"%string, positive); ("negative"%string, negative)].

(** [predict_sentiment] of the three-class cell. *)
Definition predict_sentiment3 (text : string) : result (pydict R) :=
  logits <- logits_of text ;;
  let prediction := softmax logits in
  negative <- entry2 prediction 0 0 ;;
  neutral <- entry2 prediction 0 1 ;;
  positive <- entry2 prediction 0 2 ;;
  Ok [("negative"%string, negative); ("neutral"%string, neutral);
      ("positive"%string, positive)].

(** Entry [j] of the first row of the softmax of logits of shape (B, n). *)
Lemma entry2_softmax (logits : tensor R) (B n j : nat) :
  shape logits = [B; n] -> (0 < B)%nat -> (j < n)%nat ->
  entry2 (softmax logits) 0 (Z.of_nat j)
  = Ok (exp (elem logits [0; j]%nat)
        / rsum n (fun c => exp (elem logits [0; c]%nat))).
Proof.
  intros Hs HB Hj. unfold entry2, select0. cbn [softmax shape]. rewrite Hs.
  unfold py_index.
  replace ((- Z.of_nat B <=? 0) && (0 <? Z.of_nat B))%Z with true
    by (symmetry; apply andb_true_iff; split;
        [apply Z.leb_le|apply Z.ltb_lt]; lia).
  cbn [bind shape Z.ltb Z.compare Z.to_nat].
  replace ((- Z.of_nat n <=? Z.of_nat j) && (Z.of_nat j <? Z.of_nat n))%Z
    with true
    by (symmetry; apply andb_true_iff; split;
        [apply Z.leb_le|apply Z.ltb_lt]; lia).
  replace (Z.of_nat j <? 0)%Z with false by (symmetry; apply Z.ltb_ge; lia).
  rewrite Nat2Z.id. cbn [bind]. unfold item. cbn [shape numel fold_right].
  cbn [Nat.eqb map elem]. f_equal.
  unfold softmax. cbn [elem]. rewrite Hs. cbn [last removelast app].
  apply softmax_shift. lia.
Qed.

Lemma entry2_out_of_range (t : tensor R) (B n : nat) (j : Z) :
  shape t = [B; n] -> (0 < B)%nat -> (Z.of_nat n <= j)%Z ->
  entry2 t 0 j = Raise IndexError.
Proof.
  intros Hs HB Hj. unfold entry2, select0. rewrite Hs. unfold py_index.
  replace ((- Z.of_nat B <=? 0) && (0 <? Z.of_nat B))%Z with true
    by (symmetry; apply andb_true_iff; split;
        [apply Z.leb_le|apply Z.ltb_lt]; lia).
  cbn [bind shape].
  replace (j <? Z.of_nat n)%Z with false by (symmetry; apply Z.ltb_ge; lia).
  now rewrite andb_false_r.
Qed.

End Predict.

Section PredictProperties.
Local Open Scope R_scope.

Lemma rsum_3 (f : nat -> R) : rsum 3 f = f 0%nat + f 1%nat + f 2%nat.
Proof. unfold rsum. cbn [seq map list_sum_R fold_right]. lra. Qed.

(** A sum without its first two terms. *)
Lemma rsum_drop2 (n : nat) (f : nat -> R) :
  rsum (S (S n)) f = f 0%nat + f 1%nat + rsum n (fun c => f (S (S c))).
Proof.
  induction n as [|n IH].
  - rewrite rsum_2, rsum_0. lra.
  - rewrite rsum_S, IH, (rsum_S n). lra.
Qed.

Lemma exp_le_iff (a b : R) : a <= b -> exp a <= exp b.
Proof.
  intros [Hlt | ->]; [left; now apply exp_increasing | right; reflexivity].
Qed.

Lemma ratio_le (a b z : R) : 0 < z -> a <= b -> a / z <= b / z.
Proof.
  intros Hz Hab. unfold Rdiv. pose proof (Rinv_0_lt_compat z Hz) as Hi.
  apply Rmult_le_compat_r; lra.
Qed.

(** Every logit of the first row is a finite number of the tensor
    format. *)
Definition logits_in_float_range (logits : tensor R) (n : nat) : Prop :=
  forall c, (c < n)%nat -> Rabs (elem logits [0%nat; c]) <= float32_max.

Lemma entry2_softmax_lit (logits : tensor R) (B n : nat) :
  shape logits = [B; n] -> (0 < B)%nat ->
  ((0 < n)%nat ->
   entry2 (softmax logits) 0 0
   = Ok (exp (elem logits [0; 0]%nat)
         / rsum n (fun c => exp (elem logits [0; c]%nat)))) /\
  ((1 < n)%nat ->
   entry2 (softmax logits) 0 1
   = Ok (exp (elem logits [0; 1]%nat)
         / rsum n (fun c => exp (elem logits [0; c]%nat)))) /\
  ((2 < n)%nat ->
   entry2 (softmax logits) 0 2
   = Ok (exp (elem logits [0; 2]%nat)
         / rsum n (fun c => exp (elem logits [0; c]%nat)))).
Proof.
  intros Hs HB. repeat split; intros Hn.
  - exact (entry2_softmax logits B n 0 Hs HB Hn).
  - exact (entry2_softmax logits B n 1 Hs HB Hn).
  - exact (entry2_softmax logits B n 2 Hs HB Hn).
Qed.

(** X13.  For finite logits of two labels, the two scores returned by the
    two-class [predict_sentiment] lie in [0, 1] and add up to 1; the
    positive score is the logistic function of the difference of the
    logits, and the label whose logit is not the smaller one has the score
    that is not the smaller one. *)
Theorem predict_sentiment_binary (logits_of : string -> result (tensor R))
  (text : string) (logits : tensor R) (B : nat) :
  logits_of text = Ok logits -> shape logits = [B; 2%nat] -> (0 < B)%nat ->
  logits_in_float_range logits 2 ->
  exists positive negative,
    predict_sentiment logits_of text
    = Ok [("positive"%string, positive); ("negative"%string, negative)] /\
    positive + negative = 1 /\
    0 <= positive <= 1 /\ 0 <= negative <= 1 /\
    positive = 1 / (1 + exp (elem logits [0; 0]%nat - elem logits [0; 1]%nat)) /\
    (elem logits [0; 0]%nat <= elem logits [0; 1]%nat -> negative <= positive) /\
    (elem logits [0; 1]%nat <= elem logits [0; 0]%nat -> positive <= negative).
Proof.
  intros Hl Hs HB _. unfold predict_sentiment. rewrite Hl. cbn [bind].
  destruct (entry2_softmax_lit logits B 2 Hs HB) as (E0 & E1 & _).
  rewrite E1, E0 by lia.
  cbn [bind]. rewrite rsum_2.
  set (l0 := elem logits [0; 0]%nat). set (l1 := elem logits [0; 1]%nat).
  pose proof (exp_pos l0) as H0. pose proof (exp_pos l1) as H1.
  do 2 eexists. split; [reflexivity|].
  assert (0 < exp l0 + exp l1) as Hz by lra.
  split; [field; lra|].
  split; [apply div_between_0_1; lra|].
  split; [apply div_between_0_1; lra|].
  split.
  - replace (l0 - l1) with (l0 + - l1) by lra.
    rewrite exp_plus, exp_Ropp. field. split; lra.
  - split; intros Hle; (apply ratio_le; [exact Hz|now apply exp_le_iff]).
Qed.

Definition two_logits : tensor R :=
  mkTensor [1; 2]%nat
    (fun idx => match idx with
                | [_; 0%nat] => 0
                | _ => 2
                end).

Lemma two_logits_in_range : logits_in_float_range two_logits 2.
Proof.
  intros c Hc. unfold float32_max, Rabs.
  destruct c as [|[|c]]; [| |lia]; cbn [two_logits elem];
    destruct (Rcase_abs _); lra.
Qed.

Lemma predict_sentiment_binary_witness :
  exists positive negative,
    predict_sentiment (fun _ => Ok two_logits) "fine"
    = Ok [("positive"%string, positive); ("negative"%string, negative)] /\
    negative <= positive.
Proof.
  destruct (predict_sentiment_binary (fun _ => Ok two_logits) "fine"
              two_logits 1 eq_refl eq_refl ltac:(lia) two_logits_in_range)
    as (p & q & Hp & _ & _ & _ & _ & Hord & _).
  exists p, q. split; [exact Hp|]. apply Hord. cbn [two_logits elem]. lra.
Defined.

(** X14.  For finite logits of three labels, the three scores returned by
    the three-class [predict_sentiment] lie in [0, 1] and add up to 1, and
    a label whose logit is the largest has the largest score. *)
Theorem predict_sentiment_three (logits_of : string -> result (tensor R))
  (text : string) (logits : tensor R) (B : nat) :
  logits_of text = Ok logits -> shape logits = [B; 3%nat] -> (0 < B)%nat ->
  logits_in_float_range logits 3 ->
  exists negative neutral positive,
    predict_sentiment3 logits_of text
    = Ok [("negative"%string, negative); ("neutral"%string, neutral);
          ("positive"%string, positive)] /\
    negative + neutral + positive = 1 /\
    0 <= negative <= 1 /\ 0 <= neutral <= 1 /\ 0 <= positive <= 1 /\
    (elem logits [0; 1]%nat <= elem logits [0; 0]%nat ->
     elem logits [0; 2]%nat <= elem logits [0; 0]%nat ->
     neutral <= negative /\ positive <= negative) /\
    (elem logits [0; 0]%nat <= elem logits [0; 1]%nat ->
     elem logits [0; 2]%nat <= elem logits [0; 1]%nat ->
     negative <= neutral /\ positive <= neutral) /\
    (elem logits [0; 0]%nat <= elem logits [0; 2]%nat ->
     elem logits [0; 1]%nat <= elem logits [0; 2]%nat ->
     negative <= positive /\ neutral <= positive).
Proof.
  intros Hl Hs HB _. unfold predict_sentiment3. rewrite Hl. cbn [bind].
  destruct (entry2_softmax_lit logits B 3 Hs HB) as (E0 & E1 & E2).
  rewrite E0, E1, E2 by lia.
  cbn [bind]. rewrite rsum_3.
  set (l0 := elem logits [0; 0]%nat). set (l1 := elem logits [0; 1]%nat).
  set (l2 := elem logits [0; 2]%nat).
  pose proof (exp_pos l0) as H0. pose proof (exp_pos l1) as H1.
  pose proof (exp_pos l2) as H2.
  do 3 eexists. split; [reflexivity|].
  assert (0 < exp l0 + exp l1 + exp l2) as Hz by lra.
  split; [field; lra|].
  split; [apply div_between_0_1; lra|].
  split; [apply div_between_0_1; lra|].
  split; [apply div_between_0_1; lra|].
  split; [|split]; intros Ha Hb; split;
    (apply ratio_le; [exact Hz|now apply exp_le_iff]).
Qed.

Definition three_logits : tensor R :=
  mkTensor [1; 3]%nat
    (fun idx => match idx with
                | [_; 0%nat] => 0
                | [_; 1%nat] => 1
                | _ => 2
                end).

Lemma three_logits_in_range : logits_in_float_range three_logits 3.
Proof.
  intros c Hc. unfold float32_max, Rabs.
  destruct c as [|[|[|c]]]; [| | |lia]; cbn [three_logits elem];
    destruct (Rcase_abs _); lra.
Qed.

Lemma predict_sentiment_three_witness :
  exists negative neutral positive,
    predict_sentiment3 (fun _ => Ok three_logits) "fine"
    = Ok [("negative"%string, negative); ("neutral"%string, neutral);
          ("positive"%string, positive)] /\
    negative <= positive /\ neutral <= positive.
Proof.
  destruct (predict_sentiment_three (fun _ => Ok three_logits) "fine"
              three_logits 1 eq_refl eq_refl ltac:(lia) three_logits_in_range)
    as (a & b & c & Hp & _ & _ & _ & _ & _ & _ & Hord).
  exists a, b, c. split; [exact Hp|].
  apply Hord; cbn [three_logits elem]; lra.
Defined.

(** X15.  The two functions do not check the number of labels of the
    model.  The three-class function raises IndexError on logits of fewer
    than three labels, and the two-class one on fewer than two.  On finite
    logits of three labels or more the two-class function succeeds: it
    returns the scores of the first two labels of the softmax over all the
    labels, which lie in [0, 1] and add up to 1 less the scores of the
    labels it leaves out. *)
Theorem predict_sentiment_label_mismatch
  (logits_of : string -> result (tensor R)) (text : string)
  (logits : tensor R) (B n : nat) :
  logits_of text = Ok logits -> shape logits = [B; n] -> (0 < B)%nat ->
  ((n < 3)%nat -> predict_sentiment3 logits_of text = Raise IndexError) /\
  ((n < 2)%nat -> predict_sentiment logits_of text = Raise IndexError) /\
  ((3 <= n)%nat -> logits_in_float_range logits n ->
   exists positive negative,
     predict_sentiment logits_of text
     = Ok [("positive"%string, positive); ("negative"%string, negative)] /\
     0 <= positive <= 1 /\ 0 <= negative <= 1 /\
     positive + negative
     = 1 - rsum (n - 2)
             (fun c => exp (elem logits [0%nat; S (S c)])
                       / rsum n (fun c' => exp (elem logits [0%nat; c'])))).
Proof.
  intros Hl Hs HB.
  assert (shape (softmax logits) = [B; n]) as Hss by exact Hs.
  split; [|split].
  - intros Hn. unfold predict_sentiment3. rewrite Hl. cbn [bind].
    destruct n as [|[|[|n]]]; try lia.
    + now rewrite (entry2_out_of_range (softmax logits) B 0 0 Hss HB ltac:(lia)).
    + destruct (entry2_softmax_lit logits B 1 Hs HB) as (E0 & _).
      rewrite E0 by lia. cbn [bind].
      now rewrite (entry2_out_of_range (softmax logits) B 1 1 Hss HB ltac:(lia)).
    + destruct (entry2_softmax_lit logits B 2 Hs HB) as (E0 & E1 & _).
      rewrite E0 by lia. cbn [bind]. rewrite E1 by lia. cbn [bind].
      now rewrite (entry2_out_of_range (softmax logits) B 2 2 Hss HB ltac:(lia)).
  - intros Hn. unfold predict_sentiment. rewrite Hl. cbn [bind].
    now rewrite (entry2_out_of_range (softmax logits) B n 1 Hss HB ltac:(lia)).
  - intros Hn _. unfold predict_sentiment. rewrite Hl. cbn [bind].
    destruct (entry2_softmax_lit logits B n Hs HB) as (E0 & E1 & _).
    rewrite E1, E0 by lia.
    cbn [bind]. do 2 eexists. split; [reflexivity|].
    set (f := fun c => exp (elem logits [0%nat; c])).
    assert (0 < rsum n f) as Hz by (apply rsum_exp_pos; lia).
    split; [apply (softmax_row_bounds n (fun c => elem logits [0%nat; c]) 1); lia|].
    split; [apply (softmax_row_bounds n (fun c => elem logits [0%nat; c]) 0); lia|].
    pose proof (softmax_row_sum n (fun c => elem logits [0%nat; c])
                  ltac:(lia)) as Hsum.
    destruct n as [|[|n]]; try lia.
    rewrite rsum_drop2 in Hsum.
    replace (S (S n) - 2)%nat with n by lia.
    fold f in Hsum |- *. cbv beta in Hsum. lra.
Qed.

Lemma predict_sentiment_label_mismatch_witness :
  predict_sentiment3 (fun _ => Ok two_logits) "fine" = Raise IndexError /\
  exists positive negative,
    predict_sentiment (fun _ => Ok three_logits) "fine"
    = Ok [("positive"%string, positive); ("negative"%string, negative)] /\
    0 <= positive <= 1.
Proof.
  split.
  - apply (predict_sentiment_label_mismatch (fun _ => Ok two_logits) "fine"
             two_logits 1 2 eq_refl eq_refl); lia.
  - destruct (proj2 (proj2 (predict_sentiment_label_mismatch
                              (fun _ => Ok three_logits) "fine"
                              three_logits 1 3 eq_refl eq_refl ltac:(lia)))
                ltac:(lia) three_logits_in_range)
      as (p & q & Hp & Hb & _).
    exists p, q. split; [exact Hp|exact Hb].
Defined.

End PredictProperties.

(* ================================================================== *)
(** ** class SentimentDataset *)
(* ================================================================== *)

(** [l[i]] for a list or an array and a Python integer. *)
Definition py_getitem {A : Type} (l : list A) (i : Z) : result A :=
  j <- py_index (List.length l) i ;;
  match nth_error l j with
  | Some a => Ok a
  | None => Raise IndexError
  end.

(** [t.flatten()]. *)
Definition flatten {A : Type} (t : tensor A) : tensor A :=
  mkTensor [numel (shape t)]
    (fun idx => elem t (unravel (shape t) (nth 0 idx 0))).

(** What the tokenizer returns, and an item of the dataset. *)
Record encoding : Type := mkEncoding {
  enc_input_ids : tensor Z;
  enc_attention_mask : tensor Z
}.

Record dataset_item : Type := mkItem {
  item_input_ids : tensor Z;
  item_attention_mask : tensor Z;
  item_label : tensor Z
}.

Record SentimentDataset : Type := mkDataset {
  texts : list string;
  labels : list Z;
  max_len : Z
}.

(** The integers of the range of int64. *)
Definition in_int64 (v : Z) : bool := ((- 2 ^ 63 <=? v) && (v <? 2 ^ 63))%Z.

(** [torch.tensor(v, dtype=torch.long)] for a Python integer [v]: a tensor
    without axes holding [v]; an integer outside the range of int64 does not
    fit and is rejected with RuntimeError. *)
Definition tensor_long (v : Z) : result (tensor Z) :=
  if in_int64 v then Ok (mkTensor [] (fun _ => v)) else Raise RuntimeError.

Section Dataset.

(** The tokenizer is a collaborator: called on a text with truncation and
    padding to [max_len], it returns an encoding or raises.  Moving a
    tensor to the device does not change it. *)
Variable tokenizer : string -> Z -> result encoding.

(** [SentimentDataset.__len__]. *)
Definition ds_len (ds : SentimentDataset) : nat := List.length (texts ds).

(** [SentimentDataset.__getitem__]. *)
Definition ds_getitem (ds : SentimentDataset) (idx : Z) : result dataset_item :=
  text <- py_getitem (texts ds) idx ;;
  label <- py_getitem (labels ds) idx ;;
  encoding <- tokenizer text (max_len ds) ;;
  label_tensor <- tensor_long label ;;
  Ok (mkItem (flatten (enc_input_ids encoding))
             (flatten (enc_attention_mask encoding))
             label_tensor).

(** The items at the indices 0 .. len(ds) - 1, in that order. *)
Definition ds_items (ds : SentimentDataset) : result (list dataset_item) :=
  mapM (fun i => ds_getitem ds (Z.of_nat i)) (seq 0 (ds_len ds)).

End Dataset.

Lemma py_getitem_nat {A : Type} (l : list A) (i : nat) :
  py_getitem l (Z.of_nat i)
  = match nth_error l i with
    | Some a => Ok a
    | None => Raise IndexError
    end.
Proof.
  unfold py_getitem, py_index.
  destruct (nth_error l i) as [a|] eqn:Hn.
  - assert (i < List.length l) by (apply nth_error_Some; congruence).
    replace ((- Z.of_nat (List.length l) <=? Z.of_nat i)
             && (Z.of_nat i <? Z.of_nat (List.length l)))%Z with true
      by (symmetry; apply andb_true_iff; split;
          [apply Z.leb_le|apply Z.ltb_lt]; lia).
    replace (Z.of_nat i <? 0)%Z with false by (symmetry; apply Z.ltb_ge; lia).
    cbn [bind]. now rewrite Nat2Z.id, Hn.
  - apply nth_error_None in Hn.
    replace (Z.of_nat i <? Z.of_nat (List.length l))%Z with false
      by (symmetry; apply Z.ltb_ge; lia).
    now rewrite andb_false_r.
Qed.

Lemma skipn_cons_nth {A : Type} (n : nat) (l : list A) (a : A) :
  nth_error l n = Some a -> skipn n l = a :: skipn (S n) l.
Proof.
  revert l. induction n as [|n IH]; intros [|b l] Hn; try discriminate.
  - cbn in Hn. injection Hn as ->. reflexivity.
  - cbn [nth_error] in Hn. cbn [skipn]. now apply IH.
Qed.

Lemma nth_error_firstn_In {A : Type} (n i : nat) (l : list A) (a : A) :
  nth_error l i = Some a -> i < n -> In a (firstn n l).
Proof.
  revert i l. induction n as [|n IH]; intros i l Hn Hi; [lia|].
  destruct l as [|b l]; [destruct i; discriminate|].
  destruct i as [|i]; cbn [nth_error firstn] in *.
  - injection Hn as ->. now left.
  - right. apply (IH i); [exact Hn|lia].
Qed.


Definition short_dataset : SentimentDataset :=
  mkDataset ["good"; "bad"]%string [1%Z] 128.

(** A dataset whose second label does not fit int64. *)
Definition huge_label_dataset : SentimentDataset :=
  mkDataset ["good"; "bad"]%string [1; 2 ^ 63]%Z 128.

Definition blank_tokenizer (text : string) (max_len : Z) : result encoding :=
  Ok (mkEncoding (mkTensor [1; Z.to_nat max_len] (fun _ => 0%Z))
                 (mkTensor [1; Z.to_nat max_len] (fun _ => 0%Z))).


(* ================================================================== *)
(** ** Permutation of the tokens *)
(* ================================================================== *)

(** [x[:, perm, :]]: token [s] of the result is token [p s] of [x]. *)
Definition permute_tokens (p : nat -> nat) (x : tensor R) : tensor R :=
  mkTensor (shape x)
    (fun idx => match idx with
                | b :: s :: rest => elem x (b :: p s :: rest)
                | _ => elem x idx
                end).

(** X17.  For a permutation [p] of the positions 0 .. S-1 and no mask, the
    queries, keys and values of the permuted input are those of the input
    at the permuted positions, and so are the scores: the score of queries
    [i] and [j] of the permuted input is the score of [p i] and [p j] of
    the input.  Each of these numbers is computed from the same numbers by
    the same operations in both calls; the sums over the keys that follow
    (in the softmax and in the aggregation) run over them in another
    order. *)
Theorem scores_permutation_equivariant (k : SelfAttention) (x : tensor R)
  (p : nat -> nat) (B S H D : nat) :
  kernel_wf k H D -> shape x = [B; S; H * D] ->
  Permutation (map p (seq 0 S)) (seq 0 S) ->
  exists tr tr',
    forward_trace k x PyNone = Ok tr /\
    forward_trace k (permute_tokens p x) PyNone = Ok tr' /\
    (forall b h s d, b < B -> h < H -> s < S -> d < D ->
       elem (tr_q tr') [b; h; s; d] = elem (tr_q tr) [b; h; p s; d] /\
       elem (tr_k tr') [b; h; s; d] = elem (tr_k tr) [b; h; p s; d] /\
       elem (tr_v tr') [b; h; s; d] = elem (tr_v tr) [b; h; p s; d]) /\
    (forall b h i j, b < B -> h < H -> i < S -> j < S ->
       elem (tr_scores tr') [b; h; i; j] = elem (tr_scores tr) [b; h; p i; p j]).
Proof.
  intros Hwf Hx Hp.
  assert (shape (permute_tokens p x) = [B; S; H * D]) as Hx' by exact Hx.
  destruct (forward_trace_ok k x PyNone B S H D Hwf Hx I) as (tr & Htr & Hts).
  destruct (forward_trace_ok k (permute_tokens p x) PyNone B S H D Hwf Hx' I)
    as (tr' & Htr' & Hts').
  exists tr, tr'. split; [exact Htr|]. split; [exact Htr'|].
  assert (forall b s e, b < B -> s < S -> e < H * D ->
            elem (permute_tokens p x) [b; s; e] = elem x [b; p s; e]) as Hxe
    by reflexivity.
  assert (forall b h i j, b < B -> h < H -> i < S -> j < S ->
            forbidden PyNone [b; h; i; j] = forbidden PyNone [b; h; p i; p j])
    as Hfe by reflexivity.
  split.
  - intros b h s d Hb Hh Hs Hd. repeat split.
    + now apply (transport_q k x (permute_tokens p x) PyNone PyNone B S H D
                   tr tr' p Hts Hts' Hp Hxe).
    + now apply (transport_k k x (permute_tokens p x) PyNone PyNone B S H D
                   tr tr' p Hts Hts' Hp Hxe).
    + now apply (transport_v k x (permute_tokens p x) PyNone PyNone B S H D
                   tr tr' p Hts Hts' Hp Hxe).
  - intros b h i j Hb Hh Hi Hj.
    now apply (transport_scores k x (permute_tokens p x) PyNone PyNone
                 B S H D tr tr' p Hts Hts' Hp Hxe Hfe).
Qed.

(** Three tokens with the contents 0, 1 and 2, and the reversal of three
    positions. *)
Definition ramp_x : tensor R :=
  mkTensor [1; 3; 2]
    (fun idx => match idx with
                | [_; s; _] => INR s
                | _ => 0%R
                end).

Definition reverse3 (i : nat) : nat := 2 - i.

Lemma reverse3_permutes : Permutation (map reverse3 (seq 0 3)) (seq 0 3).
Proof. exact (Permutation_sym (Permutation_rev [0; 1; 2])). Qed.

Lemma scores_permutation_equivariant_witness :
  exists tr tr',
    forward_trace ones_kernel ramp_x PyNone = Ok tr /\
    forward_trace ones_kernel (permute_tokens reverse3 ramp_x) PyNone = Ok tr' /\
    elem (tr_scores tr') [0; 0; 0; 1] = elem (tr_scores tr) [0; 0; 2; 1].
Proof.
  destruct (scores_permutation_equivariant ones_kernel ramp_x reverse3
              1 3 1 2 ones_kernel_wf eq_refl reverse3_permutes)
    as (tr & tr' & H1 & H2 & _ & Hsc).
  exists tr, tr'. repeat split; try assumption.
  apply (Hsc 0 0 0 1); lia.
Defined.

(* ================================================================== *)
(** ** Rows of finite scores *)
(* ================================================================== *)

Section FiniteRows.
Local Open Scope R_scope.

(** X18.  A call with no mask, or with a mask that fits, is the tail of
    [forward] applied to the product of queries and keys that the call
    computed.  Whatever that product holds, the tail succeeds, and every
    row of the attention weights whose scores are all finite numbers of
    the tensor format is a distribution: its entries lie in [0, 1] and
    add up to 1. *)
Theorem finite_scores_give_distributions (k : SelfAttention) (x : tensor R)
  (mask : pyvalue) (B S H D : nat) :
  kernel_wf k H D -> shape x = [B; S; (H * D)%nat] ->
  mask_fits mask [B; H; S; S] ->
  exists q kk v qk,
    forward_trace k x mask = forward_tail k B S q kk v qk mask /\
    shape qk = [B; H; S; S] /\
    forall qk', shape qk' = [B; H; S; S] ->
    exists tr,
      forward_tail k B S q kk v qk' mask = Ok tr /\
      shape (tr_attn tr) = [B; H; S; S] /\
      (forall b h i j, (b < B)%nat -> (h < H)%nat -> (i < S)%nat -> (j < S)%nat ->
         elem (tr_scores tr) [b; h; i; j]
         = if forbidden mask [b; h; i; j] then sentinel
           else elem qk' [b; h; i; j] * / sqrt (INR D)) /\
      (forall b h i, (b < B)%nat -> (h < H)%nat -> (i < S)%nat ->
         row_in_float_range (tr_scores tr) S b h i ->
         rsum S (fun j => elem (tr_attn tr) [b; h; i; j]) = 1 /\
         forall j, (j < S)%nat -> 0 <= elem (tr_attn tr) [b; h; i; j] <= 1).
Proof.
  intros Hwf Hx Hfit.
  destruct (forward_trace_prefix k x mask B S H D Hwf Hx)
    as (q & kk & v & qk & Htail & Hvs & Hqks & _).
  exists q, kk, v, qk. split; [exact Htail|]. split; [exact Hqks|].
  intros qk' Hqks'.
  destruct (forward_tail_ok k q kk v qk' mask B S H D Hwf Hvs Hqks' Hfit)
    as (tr & Htr & _ & Hsh & Hsc & Hattn & _).
  exists tr. split; [exact Htr|].
  split; [rewrite Hattn; exact Hsh|]. split; [exact Hsc|].
  intros b h i Hb Hh Hi _. rewrite Hattn.
  assert (0 < S)%nat as HS by lia. split.
  - rewrite (rsum_ext S _
      (fun j => exp (elem (tr_scores tr) [b; h; i; j])
                / rsum S (fun c => exp (elem (tr_scores tr) [b; h; i; c])))).
    + now apply (softmax_row_sum S (fun j => elem (tr_scores tr) [b; h; i; j])).
    + intros j _. now apply (softmax_elem4 _ B H S S).
  - intros j Hj. rewrite (softmax_elem4 _ B H S S) by assumption.
    now apply (softmax_row_bounds S
                 (fun c => elem (tr_scores tr) [b; h; i; c])).
Qed.

Lemma finite_scores_give_distributions_witness :
  exists tr,
    forward_trace ones_kernel ones_x (PyTensor zero_mask) = Ok tr /\
    rsum 3 (fun j => elem (tr_attn tr) [0; 0; 1; j]%nat) = 1.
Proof.
  destruct (finite_scores_give_distributions ones_kernel ones_x
              (PyTensor zero_mask) 1 3 1 2 ones_kernel_wf eq_refl eq_refl)
    as (q & kk & v & qk & Htail & Hqks & Hany).
  destruct (Hany qk Hqks) as (tr & Htr & _ & Hsc & Hrows).
  exists tr. split; [now rewrite Htail|].
  apply (Hrows 0 0 1)%nat; try lia.
  intros j Hj. rewrite Hsc by lia.
  replace (forbidden (PyTensor zero_mask) [0; 0; 1; j]%nat) with true
    by (symmetry; exact is_zero_0).
  unfold sentinel, float32_max, Rabs.
  destruct (Rcase_abs (-1e9)); lra.
Defined.

End FiniteRows.
